(** * Broadway MP4 reader: box parser and per-track sample index

    A shallow embedding of [MP4Reader] and [Track] (the reader/track module
    of the Broadway player) together with the properties of the sample
    index arithmetic, of the NAL unit extraction and of the [tkhd] / [stsz]
    box readers.

    Conventions of the embedding.

    - JavaScript numbers are IEEE doubles.  Every quantity handled here is
      built from unsigned 32-bit table entries with [+], [-], [*] and a
      single division, so finite numbers are kept as exact rationals in
      lowest terms; [NaN] and the two infinities are explicit.  The sign of
      zero is not tracked (all table entries are unsigned).
    - [undefined] is a value of its own ([value]); reading a property of
      [undefined] throws a [TypeError].
    - [console.error] appends to a console log which is threaded through
      every function that can call [assert]. *)

From Stdlib Require Import ZArith QArith Qround Qreduction.
From Stdlib Require Import List String Ascii Bool Lia.
Import ListNotations.

Local Open Scope Z_scope.

(* ================================================================= *)
(** ** JavaScript numbers *)

Module Number.

Inductive number : Type :=
| Fin (q : Q)
| NaN
| PInf
| NInf.

Definition of_Z (z : Z) : number := Fin (inject_Z z).

Definition fin (q : Q) : number := Fin (Qred q).

Definition neg (a : number) : number :=
  match a with
  | Fin q => fin (- q)
  | NaN => NaN
  | PInf => NInf
  | NInf => PInf
  end.

(** [a + b] *)
Definition add (a b : number) : number :=
  match a, b with
  | NaN, _ | _, NaN => NaN
  | Fin x, Fin y => fin (x + y)
  | PInf, NInf | NInf, PInf => NaN
  | PInf, _ | _, PInf => PInf
  | NInf, _ | _, NInf => NInf
  end.

(** [a - b] *)
Definition sub (a b : number) : number := add a (neg b).

Definition Qsign_pos (q : Q) : bool := (0 <? Qnum q)%Z.
Definition Qis_zero (q : Q) : bool := (Qnum q =? 0)%Z.

Definition inf_of_sign (positive : bool) : number :=
  if positive then PInf else NInf.

(** [a * b] *)
Definition mul (a b : number) : number :=
  match a, b with
  | NaN, _ | _, NaN => NaN
  | Fin x, Fin y => fin (x * y)
  | Fin x, PInf | PInf, Fin x =>
      if Qis_zero x then NaN else inf_of_sign (Qsign_pos x)
  | Fin x, NInf | NInf, Fin x =>
      if Qis_zero x then NaN else inf_of_sign (negb (Qsign_pos x))
  | PInf, PInf | NInf, NInf => PInf
  | PInf, NInf | NInf, PInf => NaN
  end.

(** [a / b]; a finite non-zero number divided by zero is an infinity. *)
Definition div (a b : number) : number :=
  match a, b with
  | NaN, _ | _, NaN => NaN
  | Fin x, Fin y =>
      if Qis_zero y then
        if Qis_zero x then NaN else inf_of_sign (Qsign_pos x)
      else fin (x / y)
  | Fin _, PInf | Fin _, NInf => of_Z 0
  | PInf, Fin y => inf_of_sign (Qsign_pos y || Qis_zero y)
  | NInf, Fin y => inf_of_sign (negb (Qsign_pos y || Qis_zero y))
  | _, _ => NaN
  end.

(** Rounding towards zero. *)
Definition Qtrunc (q : Q) : Z :=
  if Qsign_pos q then Qfloor q else Qceiling q.

(** [a % b]: the remainder has the sign of the dividend. *)
Definition rem (a b : number) : number :=
  match a, b with
  | Fin x, Fin y =>
      if Qis_zero y then NaN
      else fin (x - y * inject_Z (Qtrunc (x / y)))
  | Fin x, PInf | Fin x, NInf => Fin x
  | _, _ => NaN
  end.

(** [Math.floor(a)] *)
Definition floor (a : number) : number :=
  match a with
  | Fin q => of_Z (Qfloor q)
  | other => other
  end.

(** [a >= b] *)
Definition ge (a b : number) : bool :=
  match a, b with
  | NaN, _ | _, NaN => false
  | Fin x, Fin y => Qle_bool y x
  | PInf, _ => true
  | _, NInf => true
  | _, _ => false
  end.

(** [a < b] *)
Definition lt (a b : number) : bool :=
  match a, b with
  | NaN, _ | _, NaN => false
  | Fin x, Fin y => negb (Qle_bool y x)
  | PInf, _ => false
  | _, NInf => false
  | _, _ => true
  end.

(** [a > b] *)
Definition gt (a b : number) : bool := lt b a.

(** [a == b] on numbers. *)
Definition eqb (a b : number) : bool :=
  match a, b with
  | Fin x, Fin y => Qeq_bool x y
  | PInf, PInf | NInf, NInf => true
  | _, _ => false
  end.

(** The array index a number denotes when used as a property key: a
    non-negative integer.  Any other key names no element. *)
Definition to_index (a : number) : option nat :=
  match a with
  | Fin q =>
      let r := Qred q in
      if ((Qden r =? 1)%positive && (0 <=? Qnum r)%Z)%bool
      then Some (Z.to_nat (Qnum r)) else None
  | _ => None
  end.

(** Whether a number is an integer. *)
Definition is_integer (a : number) : bool :=
  match a with
  | Fin q => (Qden (Qred q) =? 1)%positive
  | _ => false
  end.

End Number.
Export Number.

Declare Scope js_scope.
Delimit Scope js_scope with js.

(* ================================================================= *)
(** ** Values, completions and the console *)

(** A JavaScript value as the track index handles it: a number or
    [undefined]. *)
Inductive value : Type :=
| undefined
| num (n : number).

(** [ToNumber] *)
Definition to_number (v : value) : number :=
  match v with
  | undefined => NaN
  | num n => n
  end.

Inductive error : Type :=
| TypeError.

(** How a call ends: with a value, with an exception, or never (a loop
    whose condition stays true). *)
Inductive completion (A : Type) : Type :=
| Normal (a : A)
| Throw (e : error)
| Diverge.
Arguments Normal {A} a.
Arguments Throw {A} e.
Arguments Diverge {A}.

(** The messages given to [console.error]; [None] is the message
    [undefined]. *)
Definition console : Type := list (option string).

(** A computation over a state [S] (the console, or the console and a
    byte cursor). *)
Definition js (S A : Type) : Type := S -> completion A * S.

Definition ret {S A} (a : A) : js S A := fun s => (Normal a, s).

Definition bind {S A B} (m : js S A) (k : A -> js S B) : js S B :=
  fun s =>
    match m s with
    | (Normal a, s') => k a s'
    | (Throw e, s') => (Throw e, s')
    | (Diverge, s') => (Diverge, s')
    end.

Definition throw {S A} (e : error) : js S A := fun s => (Throw e, s).

Definition lift {S A} (c : completion A) : js S A := fun s => (c, s).

Notation "x <- m ;; k" := (bind m (fun x => k))
  (at level 61, m at next level, right associativity) : js_scope.
Notation "m ;;; k" := (bind m (fun _ => k))
  (at level 61, right associativity) : js_scope.

Local Open Scope js_scope.

(** [console.error(message)] on either kind of state. *)
Class HasConsole (S : Type) : Type :=
  console_error : option string -> S -> S.

#[global] Instance console_HasConsole : HasConsole console :=
  fun message log => log ++ [message].

(** [assert(condition, message)]: a failed assertion is logged and the
    caller carries on. *)
Definition assert {S} `{HasConsole S} (condition : bool)
    (message : option string) : js S unit :=
  fun s => (Normal tt, if condition then s else console_error message s).

Definition PARANOID : bool := true.

(* ================================================================= *)
(** ** Arrays *)

(** [table[i]] on an array of unsigned integers. *)
Definition get (table : list Z) (i : number) : value :=
  match to_index i with
  | Some n =>
      match nth_error table n with
      | Some z => num (of_Z z)
      | None => undefined
      end
  | None => undefined
  end.

(** The index an argument of [subarray] denotes in an array of [len]
    elements: truncated, counted from the end when negative, clamped. *)
Definition relative_index (len : Z) (a : number) : Z :=
  match a with
  | NaN => 0
  | PInf => len
  | NInf => 0
  | Fin q =>
      let r := Qtrunc q in
      if r <? 0 then Z.max (len + r) 0 else Z.min r len
  end.

(** [bytes.subarray(begin, end)] *)
Definition subarray (bytes : list Z) (begin_ end_ : number) : list Z :=
  let len := Z.of_nat (List.length bytes) in
  let b := relative_index len begin_ in
  let e := relative_index len end_ in
  firstn (Z.to_nat (Z.max (e - b) 0)) (skipn (Z.to_nat b) bytes).

(* ================================================================= *)
(** ** The byte cursor *)

Module ByteStream.

(** Modelled from the spec: the [ByteStream] class is not part of the
    sources at hand.  It is a positioned reader over a fixed byte
    buffer with big-endian fixed-width reads, 8.8 and 16.16 fixed-point
    reads, four-character codes, [skip] and array reads.  What a read
    beyond the end of the buffer yields is left open by the spec; here
    the missing bytes read as [0], and the properties below are stated
    for reads inside the buffer. *)
Record t : Type := { bytes : list Z; position : Z }.

Definition byte_at (b : list Z) (p : Z) : Z :=
  if p <? 0 then 0 else nth (Z.to_nat p) b 0.

Definition be16 (b : list Z) (p : Z) : Z :=
  byte_at b p * 256 + byte_at b (p + 1).

Definition be24 (b : list Z) (p : Z) : Z :=
  byte_at b p * 65536 + byte_at b (p + 1) * 256 + byte_at b (p + 2).

Definition be32 (b : list Z) (p : Z) : Z :=
  byte_at b p * 16777216 + byte_at b (p + 1) * 65536
  + byte_at b (p + 2) * 256 + byte_at b (p + 3).

Definition advance (n : Z) (s : t) : t :=
  {| bytes := bytes s; position := position s + n |}.

Definition readU8 (s : t) : Z * t := (byte_at (bytes s) (position s), advance 1 s).
Definition readU16 (s : t) : Z * t := (be16 (bytes s) (position s), advance 2 s).
Definition readU24 (s : t) : Z * t := (be24 (bytes s) (position s), advance 3 s).
Definition readU32 (s : t) : Z * t := (be32 (bytes s) (position s), advance 4 s).

(** 8.8 and 16.16 fixed point. *)
Definition readFP8 (s : t) : number * t :=
  (div (of_Z (be16 (bytes s) (position s))) (of_Z 256), advance 2 s).
Definition readFP16 (s : t) : number * t :=
  (div (of_Z (be32 (bytes s) (position s))) (of_Z 65536), advance 4 s).

Definition char_at (b : list Z) (p : Z) : ascii :=
  ascii_of_nat (Z.to_nat (byte_at b p)).

Definition read4CC (s : t) : string * t :=
  let b := bytes s in
  let p := position s in
  (String (char_at b p) (String (char_at b (p + 1))
     (String (char_at b (p + 2)) (String (char_at b (p + 3)) EmptyString))),
   advance 4 s).

Definition skip (n : Z) (s : t) : unit * t := (tt, advance n s).

(** [readU32Array(rows)]: that many consecutive 32-bit reads. *)
Fixpoint readU32Array_from (rows : nat) (b : list Z) (p : Z) : list Z :=
  match rows with
  | O => []
  | S rows' => be32 b p :: readU32Array_from rows' b (p + 4)
  end.

Definition readU32Array (rows : Z) (s : t) : list Z * t :=
  (readU32Array_from (Z.to_nat rows) (bytes s) (position s),
   advance (4 * Z.max rows 0) s).

(** [(new ByteStream(buffer, offset)).readU32()] with the offset a
    JavaScript number: the read at that byte position.  An offset which
    is not a non-negative integer names no position; the spec does not
    say what is read then, and the model yields [NaN]. *)
Definition readU32_at (b : list Z) (offset : number) : number :=
  match to_index offset with
  | Some n => of_Z (be32 b (Z.of_nat n))
  | None => NaN
  end.

End ByteStream.

(* ================================================================= *)
(** ** The boxes a track reads *)

(** A row of the [stts] table. *)
Record SttsRow : Type := { count : Z; delta : Z }.

(** A row of the [stsc] table. *)
Record StscRow : Type :=
  { firstChunk : Z; samplesPerChunk : Z; sampleDescriptionId : Z }.

(** The [stsz] box: [table] is absent ([undefined]) when the box declares a
    non-zero uniform [sampleSize]. *)
Record Stsz : Type := { sampleSize : Z; stsz_table : option (list Z) }.

Record Mdhd : Type := { timeScale : Z; duration : Z }.

(** [trak.mdia.minf.stbl] *)
Record Stbl : Type :=
  { stsz : Stsz;
    stsc : list StscRow;
    stco : list Z;
    stts : list SttsRow }.

(** The [trak] box, with the pure containers [mdia] and [minf] flattened. *)
Record Trak : Type := { mdhd : Mdhd; stbl : Stbl }.

(** [this.file]: the reader, of which a track only uses
    [file.stream.bytes]. *)
Record File : Type := { stream_bytes : list Z }.

Record Track : Type := { file : File; trak : Trak }.

(** The result of [sampleToChunk]. *)
Record ChunkRef : Type := { index : number; offset : number }.

(* ================================================================= *)
(** ** Track *)

Section TrackIndex.

Variable this : Track.

Definition getSampleSizeTable : option (list Z) :=
  stsz_table (stsz (stbl (trak this))).

(** [getSampleSizeTable().length] *)
Definition getSampleCount : js console number :=
  match getSampleSizeTable with
  | None => throw TypeError
  | Some table => ret (of_Z (Z.of_nat (List.length table)))
  end.

(** The loop of [sampleToSize], [for (i = start; i < stop; i++)
    size += table[i]].  The condition is tested on every round; [fuel]
    only bounds the unfolding. *)
Fixpoint sampleToSize_for (fuel : nat) (table : option (list Z))
    (i stop size : number) : completion number :=
  if lt i stop then
    match fuel with
    | O => Diverge
    | S fuel' =>
        match table with
        | None => Throw TypeError
        | Some t =>
            sampleToSize_for fuel' table (add i (of_Z 1)) stop
              (add size (to_number (get t i)))
        end
    end
  else Normal size.

(** Rounds that [sampleToSize(start, length)] can take before its
    condition fails, plus one.  With an infinite [length] the condition
    never fails. *)
Definition sampleToSize_fuel (length : number) : nat :=
  match length with
  | Fin l => S (Z.to_nat (Qceiling l))
  | _ => 1
  end.

Definition sampleToSize (start length : number) : js console number :=
  let table := getSampleSizeTable in
  lift (sampleToSize_for (sampleToSize_fuel length) table
          start (add start length) (of_Z 0)).

(** The loop of [sampleToChunk] from its second round on: [row] is
    [table[i]], [previousRow] is [table[i - 1]], and [i] is the last
    index when no row follows.  [None]: the loop ran out of rows. *)
Fixpoint sampleToChunk_for (previousRow : StscRow) (rows : list StscRow)
    (sample totalChunkCount : number) : option ChunkRef :=
  match rows with
  | [] => None
  | row :: rest =>
      let previousChunkCount :=
        sub (of_Z (firstChunk row)) (of_Z (firstChunk previousRow)) in
      let previousSampleCount :=
        mul (of_Z (samplesPerChunk previousRow)) previousChunkCount in
      if ge sample previousSampleCount then
        let sample := sub sample previousSampleCount in
        match rest with
        | [] =>
            Some {| index :=
                      add (add totalChunkCount previousChunkCount)
                        (floor (div sample (of_Z (samplesPerChunk row))));
                    offset := rem sample (of_Z (samplesPerChunk row)) |}
        | _ :: _ =>
            sampleToChunk_for row rest sample
              (add totalChunkCount previousChunkCount)
        end
      else
        Some {| index :=
                  add totalChunkCount
                    (floor (div sample (of_Z (samplesPerChunk previousRow))));
                offset := rem sample (of_Z (samplesPerChunk previousRow)) |}
  end.

(** [sampleToChunk(sample)]; the result [None] is [undefined]. *)
Definition sampleToChunk (sample : number) : js console (option ChunkRef) :=
  let table := stsc (stbl (trak this)) in
  match table with
  | [row] =>
      assert (firstChunk row =? 1) None ;;;
      ret (Some {| index := div sample (of_Z (samplesPerChunk row));
                   offset := rem sample (of_Z (samplesPerChunk row)) |})
  | [] => assert false None ;;; ret None
  | row0 :: rows =>
      match sampleToChunk_for row0 rows sample (of_Z 0) with
      | Some res => ret (Some res)
      | None => assert false None ;;; ret None
      end
  end.

Definition chunkToOffset (chunk : number) : value :=
  get (stco (stbl (trak this))) chunk.

Definition sampleToOffset (sample : number) : js console number :=
  res <- sampleToChunk sample ;;
  match res with
  | None => throw TypeError
  | Some res =>
      let offset_ := chunkToOffset (index res) in
      size <- sampleToSize (sub sample (offset res)) (offset res) ;;
      ret (add (to_number offset_) size)
  end.



(** The sum [getTotalTime] accumulates when [PARANOID]. *)
Definition stts_duration (table : list SttsRow) : number :=
  fold_left
    (fun duration_ row =>
       add duration_ (mul (of_Z (count row)) (of_Z (delta row))))
    table (of_Z 0).

Definition getTotalTime : js console number :=
  (if PARANOID then
     let duration_ := stts_duration (stts (stbl (trak this))) in
     assert (eqb (of_Z (duration (mdhd (trak this)))) duration_) None
   else ret tt) ;;;
  ret (of_Z (duration (mdhd (trak this)))).

Definition getTimeScale : number := of_Z (timeScale (mdhd (trak this))).

Definition timeToSeconds (time : number) : number := div time getTimeScale.

Definition secondsToTime (seconds : number) : number :=
  mul seconds getTimeScale.

(** The loop of [getSampleNALUnits]; the final cursor is returned next
    to the units so that what was consumed can be stated. *)
Fixpoint getSampleNALUnits_while (fuel : nat) (bytes : list Z)
    (offset_ end_ : number) (nalUnits : list (list Z))
    : completion (number * list (list Z)) :=
  if gt (sub end_ offset_) (of_Z 0) then
    match fuel with
    | O => Diverge
    | S fuel' =>
        let length := ByteStream.readU32_at bytes offset_ in
        getSampleNALUnits_while fuel' bytes
          (add (add offset_ length) (of_Z 4)) end_
          (nalUnits ++
             [subarray bytes (add offset_ (of_Z 4))
                (add (add offset_ length) (of_Z 4))])
    end
  else Normal (offset_, nalUnits).

(** Every round moves the cursor by at least four bytes, the length
    prefix being unsigned. *)
Definition getSampleNALUnits_fuel (offset_ end_ : number) : nat :=
  match sub end_ offset_ with
  | Fin d => Z.to_nat (Qceiling d)
  | _ => O
  end.

Definition getSampleNALUnits (sample : number)
    : js console (list (list Z)) :=
  let bytes := stream_bytes (file this) in
  offset_ <- sampleToOffset sample ;;
  size <- sampleToSize sample (of_Z 1) ;;
  let end_ := add offset_ size in
  r <- lift (getSampleNALUnits_while (getSampleNALUnits_fuel offset_ end_)
               bytes offset_ end_ []) ;;
  ret (snd r).

End TrackIndex.

(* ================================================================= *)
(** ** MP4Reader *)

(** The typed fields of a [tkhd] box. *)
Record Tkhd : Type :=
  { creationTime : Z;
    modificationTime : Z;
    trackId : Z;
    tkhd_duration : Z;
    layer : Z;
    alternateGroup : Z;
    volume : number;
    matrix : list Z;
    width : number;
    height : number }.

Inductive BoxFields : Type :=
| TkhdFields (f : Tkhd)
| StszFields (f : Stsz)
| NoFields.

(** A box: [version] and [flags] are only set by [readFullHeader], [name]
    only by the cases that name their box. *)
Record Box : Type :=
  { box_offset : Z;
    box_size : Z;
    box_type : string;
    box_name : option string;
    box_version : option Z;
    box_flags : option Z;
    box_fields : BoxFields }.

(** What [readBox] works on: the cursor and the console. *)
Record ReaderState : Type := { stream : ByteStream.t; log : console }.

#[global] Instance ReaderState_HasConsole : HasConsole ReaderState :=
  fun message s => {| stream := stream s; log := log s ++ [message] |}.

(** A cursor operation as a reader step. *)
Definition on_stream {A} (f : ByteStream.t -> A * ByteStream.t)
    : js ReaderState A :=
  fun s => let (a, st) := f (stream s) in
           (Normal a, {| stream := st; log := log s |}).

Definition stream_position : js ReaderState Z :=
  fun s => (Normal (ByteStream.position (stream s)), s).

Section ReadBox.

Local Open Scope string_scope.

(** The cases of [readBox]'s switch which are not embedded here
    (containers recurse through [readBoxes]; the others carry no
    property stated below). *)
Definition not_embedded : list string :=
  [ "ftyp"; "moov"; "mvhd"; "trak"; "mdia"; "mdhd"; "hdlr"; "minf";
    "stbl"; "stsd"; "avc1"; "mp4a"; "esds"; "avcC"; "btrt"; "stts";
    "stss"; "stsc"; "stco"; "smhd"; "mdat" ].

(** [readBox(stream)] for the [tkhd] and [stsz] cases and for the
    default case (a box of any other type is skipped by its declared
    size).  [None]: the box is of a type in [not_embedded]. *)
Definition readBox : js ReaderState (option Box) :=
  offset_ <- stream_position ;;
  (* readHeader *)
  size <- on_stream ByteStream.readU32 ;;
  type <- on_stream ByteStream.read4CC ;;
  if String.eqb type "tkhd" then
    (* readFullHeader *)
    version <- on_stream ByteStream.readU8 ;;
    flags <- on_stream ByteStream.readU24 ;;
    assert (version =? 0)%Z None ;;;
    creationTime_ <- on_stream ByteStream.readU32 ;;
    modificationTime_ <- on_stream ByteStream.readU32 ;;
    trackId_ <- on_stream ByteStream.readU32 ;;
    on_stream (ByteStream.skip 4) ;;;
    duration_ <- on_stream ByteStream.readU32 ;;
    on_stream (ByteStream.skip 8) ;;;
    layer_ <- on_stream ByteStream.readU16 ;;
    alternateGroup_ <- on_stream ByteStream.readU16 ;;
    volume_ <- on_stream ByteStream.readFP8 ;;
    on_stream (ByteStream.skip 2) ;;;
    matrix_ <- on_stream (ByteStream.readU32Array 9) ;;
    width_ <- on_stream ByteStream.readFP16 ;;
    height_ <- on_stream ByteStream.readFP16 ;;
    ret (Some {| box_offset := offset_; box_size := size; box_type := type;
                 box_name := Some "Track Header Box";
                 box_version := Some version; box_flags := Some flags;
                 box_fields :=
                   TkhdFields
                     {| creationTime := creationTime_;
                        modificationTime := modificationTime_;
                        trackId := trackId_;
                        tkhd_duration := duration_;
                        layer := layer_;
                        alternateGroup := alternateGroup_;
                        volume := volume_;
                        matrix := matrix_;
                        width := width_;
                        height := height_ |} |})
  else if String.eqb type "stsz" then
    version <- on_stream ByteStream.readU8 ;;
    flags <- on_stream ByteStream.readU24 ;;
    sampleSize_ <- on_stream ByteStream.readU32 ;;
    count_ <- on_stream ByteStream.readU32 ;;
    table <- (if (sampleSize_ =? 0)%Z
              then t <- on_stream (ByteStream.readU32Array count_) ;;
                   ret (Some t)
              else ret None) ;;
    ret (Some {| box_offset := offset_; box_size := size; box_type := type;
                 box_name := Some "Sample Size Box";
                 box_version := Some version; box_flags := Some flags;
                 box_fields :=
                   StszFields {| sampleSize := sampleSize_;
                                 stsz_table := table |} |})
  else if existsb (String.eqb type) not_embedded then
    ret None
  else
    (* skipRemainingBytes *)
    position_ <- stream_position ;;
    on_stream (ByteStream.skip (size - (position_ - offset_)))%Z ;;;
    ret (Some {| box_offset := offset_; box_size := size; box_type := type;
                 box_name := None;
                 box_version := None; box_flags := None;
                 box_fields := NoFields |}).

End ReadBox.

(** The [stsz] fields of a parsed box, if it is one. *)
Definition stsz_of_box (b : Box) : option Stsz :=
  match box_fields b with
  | StszFields f => Some f
  | _ => None
  end.

(** The bytes of a string, e.g. of a four-character code. *)
Fixpoint bytes_of_string (s : string) : list Z :=
  match s with
  | EmptyString => []
  | String c rest => Z.of_nat (nat_of_ascii c) :: bytes_of_string rest
  end.

(* ================================================================= *)
(** ** Reference quantities and sample data *)

(** Whether a call ended with an exception. *)
Definition threw {A} (c : completion A) : bool :=
  match c with
  | Throw _ => true
  | _ => false
  end.

(** The total duration and the number of samples of [stts] rows. *)
Definition total_duration (rows : list SttsRow) : Z :=
  fold_right (fun row acc => count row * delta row + acc) 0 rows.



Definition is_byte (b : Z) : Prop := 0 <= b < 256.

(** The bytes of [table] from position [o] on, [n] of them. *)
Definition slice (o n : Z) (table : list Z) : list Z :=
  firstn (Z.to_nat n) (skipn (Z.to_nat o) table).

(** A track over the given tables. *)
Definition track_of (sizes : Stsz) (chunks : list StscRow)
    (offsets : list Z) (times : list SttsRow) (declared : Z)
    (buffer : list Z) : Track :=
  {| file := {| stream_bytes := buffer |};
     trak := {| mdhd := {| timeScale := 1000; duration := declared |};
                stbl := {| stsz := sizes; stsc := chunks;
                           stco := offsets; stts := times |} |} |}.

Definition stsc_row (first per id : Z) : StscRow :=
  {| firstChunk := first; samplesPerChunk := per; sampleDescriptionId := id |}.


(** The time-to-sample table of the comment in [timeToSample]. *)
Definition scenarioB : list SttsRow :=
  [ {| count := 4; delta := 3 |};
    {| count := 2; delta := 1 |};
    {| count := 3; delta := 2 |} ].

(** A sample of two NAL units, of two bytes and of one byte. *)
Definition scenarioC : list Z := [0; 0; 0; 2; 170; 187; 0; 0; 0; 1; 204].

(** A reader about to read at position [p] of [buffer]. *)
Definition reader_at (buffer : list Z) (p : Z) (messages : console)
    : ReaderState :=
  {| stream := {| ByteStream.bytes := buffer; ByteStream.position := p |};
     log := messages |}.

(** The four-character code stored at position [p]. *)
Definition fourCC_at (buffer : list Z) (p : Z) : string :=
  fst (ByteStream.read4CC
         {| ByteStream.bytes := buffer; ByteStream.position := p |}).

(** A version 1 [tkhd] box (104 bytes; creation time, modification time
    and duration take eight bytes each): track 1, duration 256,
    640 by 368. *)
Definition tkhd_version1 : list Z :=
  [0; 0; 0; 104] ++ bytes_of_string "tkhd"
  ++ [1] ++ [0; 0; 7]
  ++ [0; 0; 0; 0; 0; 0; 0; 5]
  ++ [0; 0; 0; 0; 0; 0; 0; 6]
  ++ [0; 0; 0; 1]
  ++ [0; 0; 0; 0]
  ++ [0; 0; 0; 0; 0; 0; 1; 0]
  ++ repeat 0 8
  ++ [0; 0] ++ [0; 0] ++ [1; 0] ++ [0; 0]
  ++ [0; 1; 0; 0] ++ repeat 0 12 ++ [0; 1; 0; 0] ++ repeat 0 12
  ++ [64; 0; 0; 0]
  ++ [2; 128; 0; 0]
  ++ [1; 112; 0; 0].



(* ================================================================= *)
(** ** Reference quantities for the sample index *)

(** The sizes of [length] samples from sample [start] on, added up. *)
Definition sum_sizes (table : list Z) (start length : Z) : Z :=
  fold_right Z.add 0 (slice start length table).




(* ================================================================= *)
(** ** Length-prefixed NAL units *)

(** The four bytes of a big-endian length prefix. *)
Definition prefix32 (n : Z) : list Z :=
  [n / 16777216; (n / 65536) mod 256; (n / 256) mod 256; n mod 256].

(** A sample made of the given units, each behind its length prefix. *)
Fixpoint encode_units (units : list (list Z)) : list Z :=
  match units with
  | [] => []
  | unit :: rest =>
      prefix32 (Z.of_nat (List.length unit)) ++ unit ++ encode_units rest
  end.

(* ================================================================= *)
(** ** Attaching children to a box *)

(** What an object holds under a key: a value which is not an array, or
    an array of such values. *)
Inductive slot (V : Type) : Type :=
| Single (v : V)
| Many (vs : list V).
Arguments Single {V} v.
Arguments Many {V} vs.

(** An object as its own properties, in the order they were created.
    The keys used below are four-character codes, none of which names a
    property that objects inherit. *)
Definition object (V : Type) : Type := list (string * slot V).

(** [parent[key]]; [None] when [key in parent] is false. *)
Fixpoint lookup {V} (key : string) (parent : object V) : option (slot V) :=
  match parent with
  | [] => None
  | (k, s) :: rest => if String.eqb k key then Some s else lookup key rest
  end.

(** [parent[key] = s] *)
Fixpoint store {V} (key : string) (s : slot V) (parent : object V)
    : object V :=
  match parent with
  | [] => [(key, s)]
  | (k, old) :: rest =>
      if String.eqb k key then (key, s) :: rest
      else (k, old) :: store key s rest
  end.

(** The body of the loop of [readBoxes] once [child] is read: the first
    child of a type is stored as it is, the second turns the property
    into an array of the two, later ones are pushed on the array. *)
Definition attachChild {V} (parent : object V) (type : string) (child : V)
    : object V :=
  match lookup type parent with
  | Some old =>
      match old with
      | Many vs => store type (Many (vs ++ [child])) parent
      | Single v => store type (Many ([v] ++ [child])) parent
      end
  | None => store type (Single child) parent
  end.

(** The values under a property, oldest first. *)
Definition slot_values {V} (s : option (slot V)) : list V :=
  match s with
  | None => []
  | Some (Single v) => [v]
  | Some (Many vs) => vs
  end.

(** The children of a given type among typed children, in their order. *)
Definition of_type {V} (type : string) (children : list (string * V))
    : list V :=
  map snd (filter (fun c => String.eqb (fst c) type) children).

(** Modelled from the spec: [peek32] belongs to the [ByteStream] class,
    which is not part of the sources at hand.  [readBoxes] loops while
    four bytes remain and the next declared size is not zero: the next
    32-bit word without moving the cursor, [0] when fewer than four
    bytes remain. *)
Definition peek32 : js ReaderState Z :=
  fun s =>
    let b := ByteStream.bytes (stream s) in
    let p := ByteStream.position (stream s) in
    (Normal (if p + 4 <=? Z.of_nat (List.length b)
             then ByteStream.be32 b p else 0),
     s).

(** [readBoxes(stream, parent)] over [readBox] as embedded above:
    [None] when a child is of a type in [not_embedded].  The condition is
    tested on every round; [fuel] only bounds the unfolding. *)
Fixpoint readBoxes (fuel : nat) (parent : object Box)
    : js ReaderState (option (object Box)) :=
  next <- peek32 ;;
  if next =? 0 then ret (Some parent)
  else
    match fuel with
    | O => lift Diverge
    | S fuel' =>
        child <- readBox ;;
        match child with
        | None => ret None
        | Some child =>
            readBoxes fuel' (attachChild parent (box_type child) child)
        end
    end.

(** The box [readBox] returns for a type it only skips. *)
Definition skipped_box (offset_ size : Z) (type : string) : Box :=
  {| box_offset := offset_; box_size := size; box_type := type;
     box_name := None; box_version := None; box_flags := None;
     box_fields := NoFields |}.

(** Whether [readBox] takes its default case for a type. *)
Definition unknown_type (type : string) : bool :=
  negb (String.eqb type "tkhd") && negb (String.eqb type "stsz")
  && negb (existsb (String.eqb type) not_embedded).

(** Boxes of unknown types laid end to end in a buffer from position
    [p] on, as their declared sizes (each at least the eight bytes of
    its header, and inside the buffer) and types, up to position [q]
    where fewer than four bytes remain or a zero size is declared. *)
Inductive unknown_boxes (buffer : list Z)
    : Z -> list (Z * string) -> Z -> Prop :=
| unknown_boxes_end (p : Z) :
    Z.of_nat (List.length buffer) < p + 4 \/ ByteStream.be32 buffer p = 0 ->
    unknown_boxes buffer p [] p
| unknown_boxes_next (p size : Z) (type : string)
    (rest : list (Z * string)) (q : Z) :
    p + 8 <= Z.of_nat (List.length buffer) ->
    ByteStream.be32 buffer p = size ->
    8 <= size ->
    p + size <= Z.of_nat (List.length buffer) ->
    fourCC_at buffer (p + 4) = type ->
    unknown_type type = true ->
    unknown_boxes buffer (p + size) rest q ->
    unknown_boxes buffer p ((size, type) :: rest) q.

(** The boxes [readBox] makes of such a run. *)
Fixpoint skipped_boxes (p : Z) (run : list (Z * string))
    : list (string * Box) :=
  match run with
  | [] => []
  | (size, type) :: rest =>
      (type, skipped_box p size type) :: skipped_boxes (p + size) rest
  end.

(** Children attached one after the other. *)
Definition attachChildren {V} (parent : object V)
    (children : list (string * V)) : object V :=
  fold_left (fun o c => attachChild o (fst c) (snd c)) children parent.

(** Whether the samples [start], ..., [start + length - 1] all have an
    entry in a size table of [size] entries (no sample at all does). *)
Definition within_table (size start length : Z) : bool :=
  (length <=? 0) || ((0 <=? start) && (start + length <=? size)).

(** The box [readBox] makes of a [tkhd] box at position [p], its fields
    taken at the offsets of version 0. *)
Definition tkhd_box (buffer : list Z) (p : Z) : Box :=
  {| box_offset := p;
     box_size := ByteStream.be32 buffer p;
     box_type := "tkhd";
     box_name := Some "Track Header Box"%string;
     box_version := Some (ByteStream.byte_at buffer (p + 8));
     box_flags := Some (ByteStream.be24 buffer (p + 9));
     box_fields :=
       TkhdFields
         {| creationTime := ByteStream.be32 buffer (p + 12);
            modificationTime := ByteStream.be32 buffer (p + 16);
            trackId := ByteStream.be32 buffer (p + 20);
            tkhd_duration := ByteStream.be32 buffer (p + 28);
            layer := ByteStream.be16 buffer (p + 40);
            alternateGroup := ByteStream.be16 buffer (p + 42);
            volume := div (of_Z (ByteStream.be16 buffer (p + 44))) (of_Z 256);
            matrix := ByteStream.readU32Array_from 9 buffer (p + 48);
            width :=
              div (of_Z (ByteStream.be32 buffer (p + 84))) (of_Z 65536);
            height :=
              div (of_Z (ByteStream.be32 buffer (p + 88))) (of_Z 65536) |} |}.

(** The box [readBox] makes of an [stsz] box at position [p] which
    carries a table. *)
Definition stsz_box (buffer : list Z) (p : Z) : Box :=
  {| box_offset := p;
     box_size := ByteStream.be32 buffer p;
     box_type := "stsz";
     box_name := Some "Sample Size Box"%string;
     box_version := Some (ByteStream.byte_at buffer (p + 8));
     box_flags := Some (ByteStream.be24 buffer (p + 9));
     box_fields :=
       StszFields
         {| sampleSize := 0;
            stsz_table :=
              Some (ByteStream.readU32Array_from
                      (Z.to_nat (ByteStream.be32 buffer (p + 16)))
                      buffer (p + 20)) |} |}.

(** How a property looks after children were attached under a key that
    was not there: nothing, the only child, or the array of them. *)
Definition slot_of {V} (children : list V) : option (slot V) :=
  match children with
  | [] => None
  | [child] => Some (Single child)
  | _ => Some (Many children)
  end.

(* ================================================================= *)
(** * Properties *)

Module NumberFacts.

Lemma Qred_inject_Z (z : Z) : Qred (inject_Z z) = inject_Z z.
Proof.
  unfold Qred, inject_Z.
  pose proof (Z.ggcd_gcd z 1) as Hg.
  pose proof (Z.ggcd_correct_divisors z 1) as Hd.
  destruct (Z.ggcd z 1) as [g [aa bb]]; simpl in *.
  rewrite Z.gcd_1_r in Hg. subst g.
  destruct Hd as [Ha Hb].
  rewrite Z.mul_1_l in Ha, Hb. subst aa bb. reflexivity.
Qed.

Lemma fin_of_Z (q : Q) (z : Z) : (q == inject_Z z)%Q -> fin q = of_Z z.
Proof.
  intros H. unfold fin, of_Z.
  rewrite (Qred_complete _ _ H). now rewrite Qred_inject_Z.
Qed.

Lemma add_of_Z (a b : Z) : add (of_Z a) (of_Z b) = of_Z (a + b).
Proof.
  unfold of_Z at 1 2; simpl. apply fin_of_Z.
  now rewrite inject_Z_plus.
Qed.

Lemma neg_of_Z (a : Z) : neg (of_Z a) = of_Z (- a).
Proof.
  unfold of_Z at 1; simpl. apply fin_of_Z. now rewrite inject_Z_opp.
Qed.

Lemma sub_of_Z (a b : Z) : sub (of_Z a) (of_Z b) = of_Z (a - b).
Proof.
  unfold sub. rewrite neg_of_Z, add_of_Z. reflexivity.
Qed.

Lemma mul_of_Z (a b : Z) : mul (of_Z a) (of_Z b) = of_Z (a * b).
Proof.
  unfold of_Z at 1 2; simpl. apply fin_of_Z. now rewrite inject_Z_mult.
Qed.


Lemma lt_of_Z (a b : Z) : lt (of_Z a) (of_Z b) = (a <? b).
Proof.
  unfold of_Z, lt, Qle_bool, inject_Z; simpl.
  rewrite !Z.mul_1_r. rewrite Z.ltb_antisym. reflexivity.
Qed.

Lemma gt_of_Z (a b : Z) : gt (of_Z a) (of_Z b) = (b <? a).
Proof. unfold gt. apply lt_of_Z. Qed.

Lemma eqb_of_Z (a b : Z) : eqb (of_Z a) (of_Z b) = (a =? b).
Proof.
  unfold of_Z, eqb, Qeq_bool, inject_Z; simpl.
  now rewrite !Z.mul_1_r.
Qed.

Lemma Qis_zero_inject_Z (z : Z) : Qis_zero (inject_Z z) = (z =? 0).
Proof. reflexivity. Qed.

Lemma div_of_Z (a b : Z) :
  b <> 0 -> div (of_Z a) (of_Z b) = fin (inject_Z a / inject_Z b).
Proof.
  intros Hb. unfold of_Z, div. rewrite Qis_zero_inject_Z.
  destruct (Z.eqb_spec b 0); [contradiction|reflexivity].
Qed.



Lemma Qceiling_inject_Z (z : Z) : Qceiling (inject_Z z) = z.
Proof.
  unfold Qceiling. rewrite <- inject_Z_opp, Qfloor_Z. lia.
Qed.

Lemma Qtrunc_inject_Z (z : Z) : Qtrunc (inject_Z z) = z.
Proof.
  unfold Qtrunc. destruct (Qsign_pos (inject_Z z)).
  - apply Qfloor_Z.
  - apply Qceiling_inject_Z.
Qed.

Lemma Qtrunc_div_nonneg (a b : Z) :
  0 <= a -> 0 < b -> Qtrunc (inject_Z a / inject_Z b) = a / b.
Proof.
  intros Ha Hb. unfold Qtrunc.
  destruct (Qsign_pos (inject_Z a / inject_Z b)) eqn:Hs.
  - now rewrite <- Zdiv_Qdiv.
  - unfold Qsign_pos in Hs. apply Z.ltb_ge in Hs.
    destruct b as [|p|p]; try lia. simpl in Hs.
    assert (a = 0) by lia. subst a. reflexivity.
Qed.

Lemma rem_of_Z (a b : Z) :
  0 <= a -> 0 < b -> rem (of_Z a) (of_Z b) = of_Z (a mod b).
Proof.
  intros Ha Hb. unfold of_Z at 1 2, rem.
  rewrite Qis_zero_inject_Z.
  destruct (Z.eqb_spec b 0); [lia|].
  apply fin_of_Z. rewrite Qtrunc_div_nonneg by assumption.
  rewrite <- inject_Z_mult. unfold Qminus.
  rewrite <- inject_Z_opp, <- inject_Z_plus.
  rewrite Z.mod_eq by lia. reflexivity.
Qed.

Lemma to_index_of_Z (z : Z) :
  to_index (of_Z z) = if 0 <=? z then Some (Z.to_nat z) else None.
Proof.
  unfold to_index, of_Z. rewrite Qred_inject_Z. reflexivity.
Qed.

End NumberFacts.

(* ================================================================= *)
(** ** Time to sample *)

Module TimeFacts.
Import NumberFacts.

Lemma total_duration_cons (row : SttsRow) (rows : list SttsRow) :
  total_duration (row :: rows) = count row * delta row + total_duration rows.
Proof. reflexivity. Qed.









Lemma stts_duration_fold (rows : list SttsRow) (acc : Z) :
  fold_left
    (fun duration_ row =>
       add duration_ (mul (of_Z (count row)) (of_Z (delta row))))
    rows (of_Z acc)
  = of_Z (acc + total_duration rows).
Proof.
  revert acc. induction rows as [|row rows IH]; intros acc.
  - cbn. now rewrite Z.add_0_r.
  - cbn [fold_left]. rewrite mul_of_Z, add_of_Z, IH, total_duration_cons.
    f_equal. lia.
Qed.

Lemma stts_duration_total (rows : list SttsRow) :
  stts_duration rows = of_Z (total_duration rows).
Proof. unfold stts_duration. now rewrite stts_duration_fold. Qed.

End TimeFacts.





(* ================================================================= *)
(** ** Total time *)

(** C4, as the code has it.  [getTotalTime] returns the duration declared
    in [mdhd], whatever the [stts] rows add up to; when the sum of
    [count * delta] differs from it the only effect is one message on the
    console, and the declared duration is still returned.  The result is
    the sum of the rows exactly when the two agree. *)
Theorem getTotalTime_declared (this : Track) (messages : console) :
  let declared := duration (mdhd (trak this)) in
  let total := total_duration (stts (stbl (trak this))) in
  getTotalTime this messages
  = (Normal (of_Z declared),
     if declared =? total then messages else messages ++ [None])
  /\ (declared = total ->
      getTotalTime this messages = (Normal (of_Z total), messages)).
Proof.
  intros declared total.
  assert (H : getTotalTime this messages
              = (Normal (of_Z declared),
                 if declared =? total then messages else messages ++ [None])).
  { unfold getTotalTime, PARANOID, bind, assert, ret.
    rewrite TimeFacts.stts_duration_total, NumberFacts.eqb_of_Z.
    fold declared total.
    destruct (declared =? total); reflexivity. }
  split; [exact H|].
  intros Heq. rewrite H, Heq, Z.eqb_refl. reflexivity.
Qed.

(** Scenario B with a consistent header: the total time is 20. *)
Lemma getTotalTime_declared_witness :
  getTotalTime (track_of {| sampleSize := 0; stsz_table := Some [] |}
                  [] [] scenarioB 20 []) []
  = (Normal (of_Z 20), []).
Proof.
  apply (proj2 (getTotalTime_declared
                  (track_of {| sampleSize := 0; stsz_table := Some [] |}
                     [] [] scenarioB 20 []) [])).
  reflexivity.
Defined.

(** C4 as stated fails: over the rows of scenario B, which add up to 20,
    a header declaring 25 makes [getTotalTime] return 25. *)
Lemma getTotalTime_not_the_sum :
  let this := track_of {| sampleSize := 0; stsz_table := Some [] |}
                [] [] scenarioB 25 [] in
  total_duration (stts (stbl (trak this))) = 20
  /\ getTotalTime this [] = (Normal (of_Z 25), [None])
  /\ fst (getTotalTime this [])
     <> Normal (of_Z (total_duration (stts (stbl (trak this))))).
Proof.
  cbv zeta. repeat split; try reflexivity.
  intros H. vm_compute in H. discriminate H.
Qed.

(* ================================================================= *)
(** ** Sample to chunk *)

Module ChunkFacts.
Import NumberFacts.

(** The exact quotient of two integers is an integer only when the
    division leaves no remainder. *)
Lemma div_of_Z_integer (s c : Z) :
  0 < c ->
  div (of_Z s) (of_Z c) = of_Z (s / c) <-> (c | s).
Proof.
  intros Hc. rewrite div_of_Z by lia. split.
  - intros H.
    assert (Hr : Qred (inject_Z s / inject_Z c) = inject_Z (s / c))
      by (unfold fin, of_Z in H; congruence).
    assert (Hq : (inject_Z s / inject_Z c == inject_Z (s / c))%Q)
      by (rewrite <- Hr; symmetry; apply Qred_correct).
    assert (Hc' : ~ (inject_Z c == 0)%Q).
    { change 0%Q with (inject_Z 0). rewrite inject_Z_injective. lia. }
    apply (Qmult_inj_r _ _ (inject_Z c) Hc') in Hq.
    rewrite Qmult_comm, Qmult_div_r in Hq by exact Hc'.
    rewrite <- inject_Z_mult in Hq. rewrite inject_Z_injective in Hq.
    exists (s / c). exact Hq.
  - intros [m ->]. apply fin_of_Z.
    rewrite Z.div_mul by lia. rewrite inject_Z_mult.
    apply Qdiv_mult_l.
    change 0%Q with (inject_Z 0). rewrite inject_Z_injective. lia.
Qed.

(** The single-row path: the quotient is returned as it is. *)
Lemma sampleToChunk_single_row (this : Track) (row : StscRow)
    (sample : Z) (messages : console) :
  stsc (stbl (trak this)) = [row] ->
  firstChunk row = 1 ->
  0 < samplesPerChunk row ->
  0 <= sample ->
  sampleToChunk this (of_Z sample) messages
  = (Normal (Some {| index := div (of_Z sample) (of_Z (samplesPerChunk row));
                     offset := of_Z (sample mod samplesPerChunk row) |}),
     messages).
Proof.
  intros Htable Hfirst Hc Hs. unfold sampleToChunk. rewrite Htable.
  unfold bind, assert, ret. rewrite Hfirst. cbn [Z.eqb Pos.eqb].
  now rewrite rem_of_Z.
Qed.




End ChunkFacts.

(** C1 at a sample the chunk size does not divide.  With the single row
    [(firstChunk 1, samplesPerChunk 2)], [sampleToChunk(1)] returns the
    index [1/2], which is not an integer (the chunk holding sample 1 is
    chunk [floor (1 / 2) = 0]); [chunkToOffset] finds no entry under that
    index and [sampleToOffset(1)] is [NaN]. *)
Theorem sampleToChunk_single_row_fraction :
  let this := track_of {| sampleSize := 0; stsz_table := Some [7; 9] |}
                [stsc_row 1 2 1] [100] [] 0 [] in
  sampleToChunk this (of_Z 1) []
  = (Normal (Some {| index := Fin (1 # 2); offset := of_Z 1 |}), [])
  /\ is_integer (Fin (1 # 2)) = false
  /\ Fin (1 # 2) <> of_Z (1 / 2)
  /\ chunkToOffset this (Fin (1 # 2)) = undefined
  /\ sampleToOffset this (of_Z 1) [] = (Normal NaN, []).
Proof.
  cbv zeta. repeat split; try reflexivity.
  intros H. discriminate H.
Qed.



(* ================================================================= *)
(** ** Sample sizes and chunk offsets *)

Module SizeFacts.
Import NumberFacts.

Lemma sampleToSize_for_eq (fuel : nat) (table : option (list Z))
    (i stop size : number) :
  sampleToSize_for fuel table i stop size
  = if lt i stop then
      match fuel with
      | O => Diverge
      | S fuel' =>
          match table with
          | None => Throw TypeError
          | Some t =>
              sampleToSize_for fuel' table (add i (of_Z 1)) stop
                (add size (to_number (get t i)))
          end
      end
    else Normal size.
Proof. destruct fuel; reflexivity. Qed.

Lemma add_NaN_r (a : number) : add a NaN = NaN.
Proof. destruct a; reflexivity. Qed.

Lemma get_outside (table : list Z) (i : Z) :
  i < 0 \/ Z.of_nat (List.length table) <= i ->
  get table (of_Z i) = undefined.
Proof.
  intros Hi. unfold get. rewrite to_index_of_Z.
  destruct (Z.leb_spec 0 i) as [Hnn|Hneg]; [|reflexivity].
  destruct (nth_error table (Z.to_nat i)) eqn:Hnth; [|reflexivity].
  assert (Hlt : (Z.to_nat i < List.length table)%nat)
    by (apply nth_error_Some; congruence).
  lia.
Qed.

Lemma sampleToSize_fuel_of_Z (length : Z) :
  sampleToSize_fuel (of_Z length) = S (Z.to_nat length).
Proof.
  unfold sampleToSize_fuel, of_Z. now rewrite Qceiling_inject_Z.
Qed.

(** Once the sum is [NaN] it stays so. *)
Lemma sampleToSize_for_NaN (fuel : nat) (table : list Z) (i stop : Z) :
  stop - i < Z.of_nat fuel ->
  sampleToSize_for fuel (Some table) (of_Z i) (of_Z stop) NaN = Normal NaN.
Proof.
  revert i. induction fuel as [|fuel IH]; intros i Hfuel;
    rewrite sampleToSize_for_eq, lt_of_Z;
    destruct (Z.ltb_spec i stop) as [Hlt|Hge]; try reflexivity; try lia.
  rewrite add_of_Z. cbn [add]. apply IH. lia.
Qed.

(** A range that leaves the table at some index sums to [NaN]. *)
Lemma sampleToSize_for_outside (fuel : nat) (table : list Z)
    (i stop j : Z) (size : number) :
  stop - i < Z.of_nat fuel ->
  i <= j < stop ->
  j < 0 \/ Z.of_nat (List.length table) <= j ->
  sampleToSize_for fuel (Some table) (of_Z i) (of_Z stop) size = Normal NaN.
Proof.
  revert i size. induction fuel as [|fuel IH]; intros i size Hfuel Hj Hout;
    rewrite sampleToSize_for_eq, lt_of_Z;
    destruct (Z.ltb_spec i stop) as [Hlt|Hge]; try lia.
  rewrite add_of_Z.
  destruct (Z.eq_dec i j) as [->|Hne].
  - rewrite get_outside by assumption. cbn [to_number].
    rewrite add_NaN_r. apply sampleToSize_for_NaN. lia.
  - apply IH; lia.
Qed.

(** An empty range costs nothing, whatever the table. *)
Lemma sampleToSize_for_empty (fuel : nat) (table : option (list Z))
    (i stop : Z) (size : number) :
  stop <= i ->
  sampleToSize_for fuel table (of_Z i) (of_Z stop) size = Normal size.
Proof.
  intros Hle. rewrite sampleToSize_for_eq, lt_of_Z.
  destruct (Z.ltb_spec i stop); [lia|reflexivity].
Qed.

End SizeFacts.




(* ================================================================= *)
(** ** NAL units *)

Module NalFacts.
Import NumberFacts.

Lemma while_eq (fuel : nat) (bytes : list Z) (offset_ end_ : number)
    (nalUnits : list (list Z)) :
  getSampleNALUnits_while fuel bytes offset_ end_ nalUnits
  = if gt (sub end_ offset_) (of_Z 0) then
      match fuel with
      | O => Diverge
      | S fuel' =>
          let length := ByteStream.readU32_at bytes offset_ in
          getSampleNALUnits_while fuel' bytes
            (add (add offset_ length) (of_Z 4)) end_
            (nalUnits ++
               [subarray bytes (add offset_ (of_Z 4))
                  (add (add offset_ length) (of_Z 4))])
      end
    else Normal (offset_, nalUnits).
Proof. destruct fuel; reflexivity. Qed.

Lemma more_to_read (e o : Z) :
  gt (sub (of_Z e) (of_Z o)) (of_Z 0) = (o <? e).
Proof.
  rewrite sub_of_Z, gt_of_Z.
  destruct (Z.ltb_spec 0 (e - o)), (Z.ltb_spec o e); auto; lia.
Qed.

Lemma nothing_to_read_NaN (end_ : number) :
  gt (sub end_ NaN) (of_Z 0) = false.
Proof. destruct end_; reflexivity. Qed.

Lemma readU32_at_of_Z (bytes : list Z) (o : Z) :
  0 <= o ->
  ByteStream.readU32_at bytes (of_Z o) = of_Z (ByteStream.be32 bytes o).
Proof.
  intros Ho. unfold ByteStream.readU32_at. rewrite to_index_of_Z.
  destruct (Z.leb_spec 0 o); [|lia]. now rewrite Z2Nat.id.
Qed.

Lemma readU32_at_negative (bytes : list Z) (o : Z) :
  o < 0 -> ByteStream.readU32_at bytes (of_Z o) = NaN.
Proof.
  intros Ho. unfold ByteStream.readU32_at. rewrite to_index_of_Z.
  destruct (Z.leb_spec 0 o); [lia|reflexivity].
Qed.

Lemma byte_at_range (bytes : list Z) (p : Z) :
  Forall is_byte bytes -> 0 <= ByteStream.byte_at bytes p < 256.
Proof.
  intros Hb. unfold ByteStream.byte_at.
  destruct (p <? 0); [lia|].
  destruct (Nat.lt_ge_cases (Z.to_nat p) (List.length bytes)) as [Hin|Hout].
  - rewrite Forall_forall in Hb. apply Hb. now apply nth_In.
  - rewrite nth_overflow by assumption. lia.
Qed.

Lemma be32_nonneg (bytes : list Z) (p : Z) :
  Forall is_byte bytes -> 0 <= ByteStream.be32 bytes p.
Proof.
  intros Hb. unfold ByteStream.be32.
  pose proof (byte_at_range bytes p Hb).
  pose proof (byte_at_range bytes (p + 1) Hb).
  pose proof (byte_at_range bytes (p + 2) Hb).
  pose proof (byte_at_range bytes (p + 3) Hb).
  lia.
Qed.

(** The round at a prefix which declares more than the sample has
    left. *)
Lemma while_overrun (fuel : nat) (bytes : list Z) (o e : Z)
    (nalUnits : list (list Z)) :
  0 <= o -> o < e ->
  e < o + 4 + ByteStream.be32 bytes o ->
  getSampleNALUnits_while (S fuel) bytes (of_Z o) (of_Z e) nalUnits
  = Normal (of_Z (o + ByteStream.be32 bytes o + 4),
            nalUnits ++
              [subarray bytes (of_Z (o + 4))
                 (of_Z (o + ByteStream.be32 bytes o + 4))]).
Proof.
  intros Ho Hoe Hover.
  rewrite while_eq, more_to_read.
  destruct (Z.ltb_spec o e); [|lia].
  cbv zeta. rewrite readU32_at_of_Z by assumption.
  rewrite !add_of_Z.
  rewrite while_eq, more_to_read.
  destruct (Z.ltb_spec (o + ByteStream.be32 bytes o + 4) e); [lia|].
  reflexivity.
Qed.

(** The loop ends, whatever the prefixes declare. *)
Lemma while_returns (fuel : nat) (bytes : list Z) (o e : Z)
    (nalUnits : list (list Z)) :
  Forall is_byte bytes ->
  e - o <= Z.of_nat fuel ->
  exists r,
    getSampleNALUnits_while fuel bytes (of_Z o) (of_Z e) nalUnits = Normal r.
Proof.
  intros Hb. revert o nalUnits.
  induction fuel as [|fuel IH]; intros o nalUnits Hfuel;
    rewrite while_eq, more_to_read;
    destruct (Z.ltb_spec o e) as [Hlt|Hge]; try (eexists; reflexivity);
    try lia.
  cbv zeta.
  destruct (Z.le_gt_cases 0 o) as [Hnn|Hneg].
  - rewrite readU32_at_of_Z by assumption. rewrite !add_of_Z.
    apply IH. pose proof (be32_nonneg bytes o Hb). lia.
  - rewrite readU32_at_negative by assumption.
    rewrite SizeFacts.add_NaN_r. cbn [add].
    rewrite while_eq, nothing_to_read_NaN. eexists; reflexivity.
Qed.

Lemma fuel_of_Z (o e : Z) :
  getSampleNALUnits_fuel (of_Z o) (of_Z e) = Z.to_nat (e - o).
Proof.
  unfold getSampleNALUnits_fuel. rewrite sub_of_Z.
  unfold of_Z. now rewrite Qceiling_inject_Z.
Qed.

(** The whole call, once the offset and the size of the sample are
    known. *)
Lemma getSampleNALUnits_unfold (this : Track) (sample : number)
    (messages messages' : console) (o size : Z) :
  sampleToOffset this sample messages = (Normal (of_Z o), messages') ->
  sampleToSize this sample (of_Z 1) messages'
  = (Normal (of_Z size), messages') ->
  getSampleNALUnits this sample messages
  = match getSampleNALUnits_while (Z.to_nat size)
            (stream_bytes (file this)) (of_Z o) (of_Z (o + size)) [] with
    | Normal r => (Normal (snd r), messages')
    | Throw e => (Throw e, messages')
    | Diverge => (Diverge, messages')
    end.
Proof.
  intros Hoff Hsize. unfold getSampleNALUnits, bind.
  rewrite Hoff, Hsize. unfold lift, ret.
  rewrite add_of_Z, fuel_of_Z.
  replace (o + size - o) with size by lia.
  destruct (getSampleNALUnits_while _ _ _ _ _); reflexivity.
Qed.

(** Arguments of [subarray] inside the buffer. *)
Lemma relative_index_inside (len x : Z) :
  0 <= x <= len -> relative_index len (of_Z x) = x.
Proof.
  intros Hx. unfold relative_index, of_Z. rewrite Qtrunc_inject_Z.
  destruct (Z.ltb_spec x 0); lia.
Qed.

Lemma subarray_inside (bytes : list Z) (b e : Z) :
  0 <= b <= e -> e <= Z.of_nat (List.length bytes) ->
  subarray bytes (of_Z b) (of_Z e) = slice b (e - b) bytes.
Proof.
  intros Hb He. unfold subarray, slice.
  rewrite !relative_index_inside by lia.
  now rewrite Z.max_l by lia.
Qed.

(** Reading inside a known slice of the buffer. *)
Lemma slice_length (o n : Z) (bytes : list Z) :
  0 <= o -> 0 < n ->
  List.length (slice o n bytes) = Z.to_nat n ->
  o + n <= Z.of_nat (List.length bytes).
Proof.
  unfold slice. intros Ho Hn Hlen.
  rewrite length_firstn, length_skipn in Hlen. lia.
Qed.

Lemma byte_at_slice (o n k : Z) (bytes : list Z) :
  0 <= o -> 0 <= k < n ->
  ByteStream.byte_at bytes (o + k) = nth (Z.to_nat k) (slice o n bytes) 0.
Proof.
  intros Ho Hk. unfold ByteStream.byte_at, slice.
  destruct (Z.ltb_spec (o + k) 0); [lia|].
  rewrite nth_firstn.
  destruct (Nat.ltb_spec (Z.to_nat k) (Z.to_nat n)); [|lia].
  rewrite nth_skipn. f_equal. lia.
Qed.

Lemma slice_slice (o n a m : Z) (bytes : list Z) :
  0 <= o -> 0 <= a -> 0 <= m -> a + m <= n ->
  slice (o + a) m bytes = slice a m (slice o n bytes).
Proof.
  intros Ho Ha Hm Hn. unfold slice.
  rewrite skipn_firstn_comm, firstn_firstn, skipn_skipn.
  rewrite Nat.min_l by lia.
  f_equal. f_equal. lia.
Qed.

Lemma be32_slice (o n k : Z) (bytes : list Z) :
  0 <= o -> 0 <= k -> k + 4 <= n ->
  ByteStream.be32 bytes (o + k) = ByteStream.be32 (slice o n bytes) k.
Proof.
  intros Ho Hk Hn.
  assert (Hbyte : forall i, 0 <= i < 4 ->
            ByteStream.byte_at bytes (o + k + i)
            = ByteStream.byte_at (slice o n bytes) (k + i)).
  { intros i Hi. rewrite <- Z.add_assoc.
    rewrite (byte_at_slice o n (k + i)) by lia.
    unfold ByteStream.byte_at at 1.
    destruct (Z.ltb_spec (k + i) 0); [lia|reflexivity]. }
  unfold ByteStream.be32.
  rewrite <- (Z.add_0_r (o + k)) at 1. rewrite <- (Z.add_0_r k) at 5.
  rewrite !Hbyte by lia. reflexivity.
Qed.

(** A round at a prefix whose unit lies inside the buffer. *)
Lemma while_step (fuel : nat) (bytes : list Z) (o e : Z)
    (nalUnits : list (list Z)) :
  0 <= o -> o < e ->
  0 <= ByteStream.be32 bytes o ->
  o + 4 + ByteStream.be32 bytes o <= Z.of_nat (List.length bytes) ->
  getSampleNALUnits_while (S fuel) bytes (of_Z o) (of_Z e) nalUnits
  = getSampleNALUnits_while fuel bytes
      (of_Z (o + 4 + ByteStream.be32 bytes o)) (of_Z e)
      (nalUnits ++ [slice (o + 4) (ByteStream.be32 bytes o) bytes]).
Proof.
  intros Ho Hoe Hlen Hin.
  rewrite while_eq, more_to_read.
  destruct (Z.ltb_spec o e); [|lia].
  cbv zeta. rewrite readU32_at_of_Z by assumption.
  rewrite !add_of_Z.
  rewrite subarray_inside by lia.
  replace (o + ByteStream.be32 bytes o + 4)
    with (o + 4 + ByteStream.be32 bytes o) by lia.
  replace (o + 4 + ByteStream.be32 bytes o - (o + 4))
    with (ByteStream.be32 bytes o) by lia.
  reflexivity.
Qed.

Lemma while_done (fuel : nat) (bytes : list Z) (o e : Z)
    (nalUnits : list (list Z)) :
  e <= o ->
  getSampleNALUnits_while fuel bytes (of_Z o) (of_Z e) nalUnits
  = Normal (of_Z o, nalUnits).
Proof.
  intros Hle. rewrite while_eq, more_to_read.
  destruct (Z.ltb_spec o e); [lia|reflexivity].
Qed.

End NalFacts.

(** C3, as the code has it.  A length prefix that declares more bytes
    than the sample has left is not an error.  In the round that reads
    it, the bytes after the prefix are taken up to the declared length
    (which [subarray] cuts at the end of the buffer only), the cursor
    moves past the end of the sample, and the loop stops there with the
    units collected; and whatever the prefixes declare, a call whose
    sample has an offset and a size returns its units normally. *)
Theorem getSampleNALUnits_overrun_returns :
  (forall (fuel : nat) (bytes : list Z) (o e : Z) (nalUnits : list (list Z)),
      0 <= o -> o < e ->
      o + 4 <= Z.of_nat (List.length bytes) ->
      e < o + 4 + ByteStream.be32 bytes o ->
      getSampleNALUnits_while (S fuel) bytes (of_Z o) (of_Z e) nalUnits
      = Normal (of_Z (o + ByteStream.be32 bytes o + 4),
                nalUnits ++
                  [subarray bytes (of_Z (o + 4))
                     (of_Z (o + ByteStream.be32 bytes o + 4))]))
  /\ (forall (this : Track) (sample : number) (messages messages' : console)
        (o size : Z),
         Forall is_byte (stream_bytes (file this)) ->
         sampleToOffset this sample messages = (Normal (of_Z o), messages') ->
         sampleToSize this sample (of_Z 1) messages'
         = (Normal (of_Z size), messages') ->
         exists nalUnits,
           getSampleNALUnits this sample messages
           = (Normal nalUnits, messages')).
Proof.
  split.
  - intros fuel bytes o e nalUnits Ho Hoe _ Hover.
    now apply NalFacts.while_overrun.
  - intros this sample messages messages' o size Hbytes Hoff Hsize.
    rewrite (NalFacts.getSampleNALUnits_unfold _ _ _ _ _ _ Hoff Hsize).
    destruct (NalFacts.while_returns (Z.to_nat size)
                (stream_bytes (file this)) o (o + size) [] Hbytes)
      as [r Hr]; [lia|].
    rewrite Hr. now exists (snd r).
Qed.

(** A sample of five bytes whose prefix declares five more, followed in
    the buffer by bytes of something else. *)
Lemma getSampleNALUnits_overrun_returns_witness :
  let this := track_of {| sampleSize := 0; stsz_table := Some [5] |}
                [stsc_row 1 1 1] [0] [] 0
                [0; 0; 0; 5; 170; 1; 2; 3; 4; 9; 9] in
  getSampleNALUnits_while 1 (stream_bytes (file this)) (of_Z 0) (of_Z 5) []
  = Normal (of_Z 9, [[170; 1; 2; 3; 4]])
  /\ exists nalUnits,
       getSampleNALUnits this (of_Z 0) [] = (Normal nalUnits, []).
Proof.
  cbv zeta. split.
  - apply (proj1 getSampleNALUnits_overrun_returns 0%nat
             [0; 0; 0; 5; 170; 1; 2; 3; 4; 9; 9] 0 5 []).
    + lia.
    + lia.
    + simpl; lia.
    + vm_compute; reflexivity.
  - apply (proj2 getSampleNALUnits_overrun_returns
             (track_of {| sampleSize := 0; stsz_table := Some [5] |}
                [stsc_row 1 1 1] [0] [] 0
                [0; 0; 0; 5; 170; 1; 2; 3; 4; 9; 9])
             (of_Z 0) [] [] 0 5).
    + repeat constructor; unfold is_byte; lia.
    + reflexivity.
    + reflexivity.
Defined.

(** C3 as stated fails: the first sample is five bytes long, its prefix
    declares a unit of five bytes, four more than the sample has, and
    [getSampleNALUnits] returns normally, with a unit that runs into the
    bytes after the sample. *)
Lemma getSampleNALUnits_overrun_not_an_error :
  let this := track_of {| sampleSize := 0; stsz_table := Some [5] |}
                [stsc_row 1 1 1] [0] [] 0
                [0; 0; 0; 5; 170; 1; 2; 3; 4; 9; 9] in
  sampleToOffset this (of_Z 0) [] = (Normal (of_Z 0), [])
  /\ sampleToSize this (of_Z 0) (of_Z 1) [] = (Normal (of_Z 5), [])
  /\ ByteStream.readU32_at (stream_bytes (file this)) (of_Z 0) = of_Z 5
  /\ 0 + 5 < 0 + 4 + 5
  /\ getSampleNALUnits this (of_Z 0) [] = (Normal [[170; 1; 2; 3; 4]], [])
  /\ threw (fst (getSampleNALUnits this (of_Z 0) [])) = false.
Proof. cbv zeta. repeat split. Qed.

(** C6.  A sample whose eleven bytes are those of scenario C, wherever it
    lies in the buffer, yields the two units [0xAA, 0xBB] and [0xCC],
    the prefixes left out, and the loop stops with its cursor exactly at
    the end of the sample. *)
Theorem getSampleNALUnits_scenarioC (this : Track) (sample : number)
    (messages messages' : console) (o : Z) :
  0 <= o ->
  slice o 11 (stream_bytes (file this)) = scenarioC ->
  sampleToOffset this sample messages = (Normal (of_Z o), messages') ->
  sampleToSize this sample (of_Z 1) messages' = (Normal (of_Z 11), messages') ->
  getSampleNALUnits this sample messages
  = (Normal [[170; 187]; [204]], messages')
  /\ getSampleNALUnits_while
       (getSampleNALUnits_fuel (of_Z o) (of_Z (o + 11)))
       (stream_bytes (file this)) (of_Z o) (of_Z (o + 11)) []
     = Normal (of_Z (o + 11), [[170; 187]; [204]]).
Proof.
  intros Ho Hslice Hoff Hsize.
  set (bytes := stream_bytes (file this)) in *.
  assert (Hlen : o + 11 <= Z.of_nat (List.length bytes)).
  { apply NalFacts.slice_length; try lia. now rewrite Hslice. }
  assert (H1 : ByteStream.be32 bytes o = 2).
  { rewrite <- (Z.add_0_r o).
    rewrite (NalFacts.be32_slice o 11 0) by lia. now rewrite Hslice. }
  assert (H2 : ByteStream.be32 bytes (o + 6) = 1).
  { rewrite (NalFacts.be32_slice o 11 6) by lia. now rewrite Hslice. }
  assert (U1 : slice (o + 4) 2 bytes = [170; 187]).
  { rewrite (NalFacts.slice_slice o 11) by lia. now rewrite Hslice. }
  assert (U2 : slice (o + 10) 1 bytes = [204]).
  { rewrite (NalFacts.slice_slice o 11) by lia. now rewrite Hslice. }
  assert (Hloop : getSampleNALUnits_while 11 bytes (of_Z o) (of_Z (o + 11)) []
                  = Normal (of_Z (o + 11), [[170; 187]; [204]])).
  { rewrite NalFacts.while_step by (rewrite ?H1; lia).
    rewrite H1, U1. replace (o + 4 + 2) with (o + 6) by lia.
    rewrite NalFacts.while_step by (rewrite ?H2; lia).
    rewrite H2. replace (o + 6 + 4) with (o + 10) by lia. rewrite U2.
    replace (o + 10 + 1) with (o + 11) by lia.
    now rewrite NalFacts.while_done by lia. }
  split.
  - rewrite (NalFacts.getSampleNALUnits_unfold _ _ _ _ _ _ Hoff Hsize).
    change (Z.to_nat 11) with 11%nat. fold bytes. now rewrite Hloop.
  - rewrite NalFacts.fuel_of_Z.
    replace (o + 11 - o) with 11 by lia.
    change (Z.to_nat 11) with 11%nat. exact Hloop.
Qed.

(** The sample of scenario C as the second sample of a track, in a chunk
    of its own behind a first sample of three bytes. *)
Lemma getSampleNALUnits_scenarioC_witness :
  let this := track_of {| sampleSize := 0; stsz_table := Some [3; 11] |}
                [stsc_row 1 1 1] [0; 3] [] 0
                ([7; 7; 7] ++ scenarioC ++ [9]) in
  getSampleNALUnits this (of_Z 1) [] = (Normal [[170; 187]; [204]], [])
  /\ getSampleNALUnits_while
       (getSampleNALUnits_fuel (of_Z 3) (of_Z (3 + 11)))
       (stream_bytes (file this)) (of_Z 3) (of_Z (3 + 11)) []
     = Normal (of_Z (3 + 11), [[170; 187]; [204]]).
Proof.
  cbv zeta.
  apply (getSampleNALUnits_scenarioC
           (track_of {| sampleSize := 0; stsz_table := Some [3; 11] |}
              [stsc_row 1 1 1] [0; 3] [] 0
              ([7; 7; 7] ++ scenarioC ++ [9]))
           (of_Z 1) [] [] 3).
  - lia.
  - reflexivity.
  - reflexivity.
  - reflexivity.
Defined.

(* ================================================================= *)
(** ** Reading boxes *)

Module ReaderFacts.

Section Steps.

Context {B : Type}.
Variables (bytes : list Z) (p : Z) (messages : console).

Lemma step_position (k : Z -> js ReaderState B) :
  bind stream_position k (reader_at bytes p messages)
  = k p (reader_at bytes p messages).
Proof. reflexivity. Qed.

Lemma step_readU8 (k : Z -> js ReaderState B) :
  bind (on_stream ByteStream.readU8) k (reader_at bytes p messages)
  = k (ByteStream.byte_at bytes p) (reader_at bytes (p + 1) messages).
Proof. reflexivity. Qed.

Lemma step_readU16 (k : Z -> js ReaderState B) :
  bind (on_stream ByteStream.readU16) k (reader_at bytes p messages)
  = k (ByteStream.be16 bytes p) (reader_at bytes (p + 2) messages).
Proof. reflexivity. Qed.

Lemma step_readU24 (k : Z -> js ReaderState B) :
  bind (on_stream ByteStream.readU24) k (reader_at bytes p messages)
  = k (ByteStream.be24 bytes p) (reader_at bytes (p + 3) messages).
Proof. reflexivity. Qed.

Lemma step_readU32 (k : Z -> js ReaderState B) :
  bind (on_stream ByteStream.readU32) k (reader_at bytes p messages)
  = k (ByteStream.be32 bytes p) (reader_at bytes (p + 4) messages).
Proof. reflexivity. Qed.

Lemma step_read4CC (k : string -> js ReaderState B) :
  bind (on_stream ByteStream.read4CC) k (reader_at bytes p messages)
  = k (fourCC_at bytes p) (reader_at bytes (p + 4) messages).
Proof. reflexivity. Qed.

Lemma step_readFP8 (k : number -> js ReaderState B) :
  bind (on_stream ByteStream.readFP8) k (reader_at bytes p messages)
  = k (div (of_Z (ByteStream.be16 bytes p)) (of_Z 256))
      (reader_at bytes (p + 2) messages).
Proof. reflexivity. Qed.

Lemma step_readFP16 (k : number -> js ReaderState B) :
  bind (on_stream ByteStream.readFP16) k (reader_at bytes p messages)
  = k (div (of_Z (ByteStream.be32 bytes p)) (of_Z 65536))
      (reader_at bytes (p + 4) messages).
Proof. reflexivity. Qed.

Lemma step_skip (n : Z) (k : unit -> js ReaderState B) :
  bind (on_stream (ByteStream.skip n)) k (reader_at bytes p messages)
  = k tt (reader_at bytes (p + n) messages).
Proof. reflexivity. Qed.

Lemma step_readU32Array (rows : Z) (k : list Z -> js ReaderState B) :
  bind (on_stream (ByteStream.readU32Array rows)) k
    (reader_at bytes p messages)
  = k (ByteStream.readU32Array_from (Z.to_nat rows) bytes p)
      (reader_at bytes (p + 4 * Z.max rows 0) messages).
Proof. reflexivity. Qed.

Lemma step_assert (condition : bool) (k : unit -> js ReaderState B) :
  bind (assert condition None) k (reader_at bytes p messages)
  = k tt (reader_at bytes p
            (if condition then messages else messages ++ [None])).
Proof. destruct condition; reflexivity. Qed.

End Steps.

Ltac step :=
  first
    [ rewrite step_position | rewrite step_readU32 | rewrite step_read4CC
    | rewrite step_readU8 | rewrite step_readU24 | rewrite step_readU16
    | rewrite step_readFP8 | rewrite step_readFP16 | rewrite step_skip
    | rewrite step_readU32Array | rewrite step_assert ];
  cbv beta.

(** Positions are compared as integers, everything else part by
    part. *)
Ltac same_result :=
  unfold ret;
  repeat match goal with
         | |- @eq Z _ _ => lia
         | |- @eq nat _ _ => reflexivity
         | |- _ => progress f_equal
         end.

End ReaderFacts.

(** C7, as the code has it.  A [tkhd] box whose version byte is not zero
    is read like a version 0 box: the failed assertion puts one message
    on the console, every field is then taken at its version 0 offset,
    the cursor ends 92 bytes after the start of the box, and [readBox]
    returns the box normally. *)
Theorem readBox_tkhd_other_version (bytes : list Z) (p : Z)
    (messages : console) :
  0 <= p ->
  p + 92 <= Z.of_nat (List.length bytes) ->
  fourCC_at bytes (p + 4) = "tkhd"%string ->
  ByteStream.byte_at bytes (p + 8) <> 0 ->
  readBox (reader_at bytes p messages)
  = (Normal
       (Some
          {| box_offset := p;
             box_size := ByteStream.be32 bytes p;
             box_type := "tkhd";
             box_name := Some "Track Header Box"%string;
             box_version := Some (ByteStream.byte_at bytes (p + 8));
             box_flags := Some (ByteStream.be24 bytes (p + 9));
             box_fields :=
               TkhdFields
                 {| creationTime := ByteStream.be32 bytes (p + 12);
                    modificationTime := ByteStream.be32 bytes (p + 16);
                    trackId := ByteStream.be32 bytes (p + 20);
                    tkhd_duration := ByteStream.be32 bytes (p + 28);
                    layer := ByteStream.be16 bytes (p + 40);
                    alternateGroup := ByteStream.be16 bytes (p + 42);
                    volume :=
                      div (of_Z (ByteStream.be16 bytes (p + 44))) (of_Z 256);
                    matrix := ByteStream.readU32Array_from 9 bytes (p + 48);
                    width :=
                      div (of_Z (ByteStream.be32 bytes (p + 84)))
                        (of_Z 65536);
                    height :=
                      div (of_Z (ByteStream.be32 bytes (p + 88)))
                        (of_Z 65536) |} |}),
     reader_at bytes (p + 92) (messages ++ [None])).
Proof.
  intros _ _ Htype Hversion.
  unfold readBox. do 3 ReaderFacts.step. rewrite Htype.
  change (String.eqb "tkhd" "tkhd") with true. cbv iota.
  repeat ReaderFacts.step.
  replace (p + 4 + 4) with (p + 8) by lia.
  destruct (Z.eqb_spec (ByteStream.byte_at bytes (p + 8)) 0) as [H0|_];
    [contradiction|].
  change (Z.to_nat 9) with 9%nat.
  ReaderFacts.same_result.
Qed.

(** A genuine version 1 box: the assertion is logged, the box comes back,
    and the cursor stops 92 bytes in, short of the 104 the box has. *)
Lemma readBox_tkhd_other_version_witness :
  exists box,
    readBox (reader_at tkhd_version1 0 [])
    = (Normal (Some box), reader_at tkhd_version1 (0 + 92) ([] ++ [None])).
Proof.
  eexists. apply readBox_tkhd_other_version.
  - lia.
  - vm_compute. discriminate.
  - reflexivity.
  - vm_compute. discriminate.
Defined.

(** C7 as stated fails: reading the version 1 box of track 1 raises
    nothing.  The version is logged and the fields are taken at the
    version 0 offsets: the track id comes out as 0 (the upper half of
    the modification time) and twelve bytes of the box are left
    unread. *)
Lemma readBox_tkhd_version1_not_an_error :
  let s := reader_at tkhd_version1 0 [] in
  ByteStream.byte_at tkhd_version1 8 = 1
  /\ threw (fst (readBox s)) = false
  /\ snd (readBox s) = reader_at tkhd_version1 92 [None]
  /\ (exists box fields,
         fst (readBox s) = Normal (Some box)
         /\ box_version box = Some 1
         /\ box_size box = 104
         /\ box_fields box = TkhdFields fields
         /\ trackId fields = 0
         /\ ByteStream.be32 tkhd_version1 28 = 1).
Proof.
  cbv zeta. split; [reflexivity|]. split; [vm_compute; reflexivity|].
  split; [vm_compute; reflexivity|].
  eexists. eexists.
  split; [vm_compute; reflexivity|].
  repeat split.
Qed.





(* ================================================================= *)
(** * Further properties *)

(** ** Sizes of runs of samples *)

Module SizeMore.
Import NumberFacts.

Lemma get_inside (table : list Z) (i : Z) :
  0 <= i < Z.of_nat (List.length table) ->
  get table (of_Z i) = num (of_Z (nth (Z.to_nat i) table 0)).
Proof.
  intros Hi. unfold get. rewrite to_index_of_Z.
  destruct (Z.leb_spec 0 i); [|lia].
  destruct (nth_error table (Z.to_nat i)) eqn:Hnth.
  - now rewrite (nth_error_nth _ _ _ Hnth).
  - apply nth_error_None in Hnth. lia.
Qed.

Lemma slice_empty (o n : Z) (table : list Z) :
  n <= 0 -> slice o n table = [].
Proof.
  intros Hn. unfold slice.
  replace (Z.to_nat n) with 0%nat by lia. reflexivity.
Qed.

Lemma slice_cons (o n : Z) (table : list Z) :
  0 <= o < Z.of_nat (List.length table) -> 0 < n ->
  slice o n table = nth (Z.to_nat o) table 0 :: slice (o + 1) (n - 1) table.
Proof.
  intros Ho Hn. unfold slice.
  replace (Z.to_nat n) with (S (Z.to_nat (n - 1))) by lia.
  replace (Z.to_nat (o + 1)) with (S (Z.to_nat o)) by lia.
  assert (Hlt : (Z.to_nat o < List.length table)%nat) by lia.
  revert Hlt. generalize (Z.to_nat o) as k. clear Ho.
  induction table as [|x table IH]; intros k Hlt.
  - simpl in Hlt. lia.
  - destruct k as [|k].
    + reflexivity.
    + cbn [skipn nth]. apply IH. simpl in Hlt. lia.
Qed.

Lemma sum_sizes_empty (table : list Z) (start length : Z) :
  length <= 0 -> sum_sizes table start length = 0.
Proof. intros H. unfold sum_sizes. now rewrite slice_empty. Qed.

Lemma sum_sizes_cons (table : list Z) (start length : Z) :
  0 <= start < Z.of_nat (List.length table) -> 0 < length ->
  sum_sizes table start length
  = nth (Z.to_nat start) table 0 + sum_sizes table (start + 1) (length - 1).
Proof.
  intros Hs Hl. unfold sum_sizes. now rewrite slice_cons.
Qed.

(** The loop over a range inside the table. *)
Lemma sampleToSize_for_inside (n : nat) :
  forall (fuel : nat) (table : list Z) (i acc : Z),
    0 <= i ->
    i + Z.of_nat n <= Z.of_nat (List.length table) ->
    (n < fuel)%nat ->
    sampleToSize_for fuel (Some table) (of_Z i) (of_Z (i + Z.of_nat n))
      (of_Z acc)
    = Normal (of_Z (acc + sum_sizes table i (Z.of_nat n))).
Proof.
  induction n as [|n IH]; intros fuel table i acc Hi Hlen Hfuel.
  - rewrite SizeFacts.sampleToSize_for_empty by lia.
    rewrite sum_sizes_empty by lia. now rewrite Z.add_0_r.
  - destruct fuel as [|fuel]; [lia|].
    rewrite SizeFacts.sampleToSize_for_eq, lt_of_Z.
    destruct (Z.ltb_spec i (i + Z.of_nat (S n))); [|lia].
    rewrite get_inside by lia. cbn [to_number].
    rewrite !add_of_Z.
    replace (i + Z.of_nat (S n)) with (i + 1 + Z.of_nat n) by lia.
    rewrite IH by lia.
    rewrite (sum_sizes_cons table i (Z.of_nat (S n))) by lia.
    replace (Z.of_nat (S n) - 1) with (Z.of_nat n) by lia.
    f_equal. f_equal. lia.
Qed.

Lemma within_table_spec (size start length : Z) :
  within_table size start length = true
  <-> length <= 0 \/ (0 <= start /\ start + length <= size).
Proof.
  unfold within_table.
  rewrite Bool.orb_true_iff, Bool.andb_true_iff, !Z.leb_le. tauto.
Qed.



(** What [sampleToSize] returns over any integer range, the size table
    being there. *)
Lemma sampleToSize_value (this : Track) (table : list Z)
    (start length : Z) (messages : console) :
  getSampleSizeTable this = Some table ->
  sampleToSize this (of_Z start) (of_Z length) messages
  = (Normal
       (if within_table (Z.of_nat (List.length table)) start length
        then of_Z (sum_sizes table start length) else NaN),
     messages).
Proof.
  intros Htable. unfold sampleToSize, lift. rewrite Htable.
  rewrite SizeFacts.sampleToSize_fuel_of_Z, add_of_Z. f_equal.
  destruct (within_table _ start length) eqn:Hin.
  - apply within_table_spec in Hin. destruct Hin as [Hempty|[Hs Hlen]].
    + rewrite SizeFacts.sampleToSize_for_empty by lia.
      now rewrite sum_sizes_empty.
    + destruct (Z.le_gt_cases length 0) as [Hempty|Hpos].
      * rewrite SizeFacts.sampleToSize_for_empty by lia.
        now rewrite sum_sizes_empty.
      * replace (start + length)
          with (start + Z.of_nat (Z.to_nat length)) by lia.
        rewrite sampleToSize_for_inside by lia.
        rewrite Z2Nat.id by lia. now rewrite Z.add_0_l.
  - assert (Hout : ~ (length <= 0
                      \/ (0 <= start
                          /\ start + length <= Z.of_nat (List.length table))))
      by (rewrite <- within_table_spec; congruence).
    destruct (Z.lt_ge_cases start 0).
    + apply SizeFacts.sampleToSize_for_outside with (j := start); lia.
    + apply SizeFacts.sampleToSize_for_outside
        with (j := start + length - 1); lia.
Qed.

End SizeMore.





(** ** Chunks *)

Module ChunkMore.
Import NumberFacts.










Lemma div_of_Z_exact (q c : Z) :
  0 < c -> div (of_Z (c * q)) (of_Z c) = of_Z q.
Proof.
  intros Hc. rewrite div_of_Z by lia. apply fin_of_Z.
  rewrite inject_Z_mult. rewrite Qmult_comm. apply Qdiv_mult_l.
  change 0%Q with (inject_Z 0). rewrite inject_Z_injective. lia.
Qed.

Lemma add_NaN_l (a : number) : add NaN a = NaN.
Proof. reflexivity. Qed.

End ChunkMore.



(** X4.  With an empty sample-to-chunk table [sampleToChunk] logs its
    failed assertion and returns [undefined], for whatever sample; the
    callers then read a property of [undefined]: [sampleToOffset] and
    [getSampleNALUnits] throw a [TypeError]. *)
Theorem empty_stsc_table (this : Track) (sample : number)
    (messages : console) :
  stsc (stbl (trak this)) = [] ->
  sampleToChunk this sample messages = (Normal None, messages ++ [None])
  /\ sampleToOffset this sample messages
     = (Throw TypeError, messages ++ [None])
  /\ getSampleNALUnits this sample messages
     = (Throw TypeError, messages ++ [None]).
Proof.
  intros Htable.
  assert (Hchunk : sampleToChunk this sample messages
                   = (Normal None, messages ++ [None]))
    by (unfold sampleToChunk; now rewrite Htable).
  assert (Hoff : sampleToOffset this sample messages
                 = (Throw TypeError, messages ++ [None]))
    by (unfold sampleToOffset, bind; now rewrite Hchunk).
  repeat split; try assumption.
  unfold getSampleNALUnits, bind. now rewrite Hoff.
Qed.

Lemma empty_stsc_table_witness :
  sampleToChunk (track_of {| sampleSize := 0; stsz_table := Some [4] |}
                   [] [0] [] 0 [])
    (of_Z 0) []
  = (Normal None, [] ++ [None])
  /\ sampleToOffset (track_of {| sampleSize := 0; stsz_table := Some [4] |}
                       [] [0] [] 0 [])
       (of_Z 0) []
     = (Throw TypeError, [] ++ [None])
  /\ getSampleNALUnits (track_of {| sampleSize := 0; stsz_table := Some [4] |}
                          [] [0] [] 0 [])
       (of_Z 0) []
     = (Throw TypeError, [] ++ [None]).
Proof.
  apply (empty_stsc_table
           (track_of {| sampleSize := 0; stsz_table := Some [4] |}
              [] [0] [] 0 [])
           (of_Z 0) []).
  reflexivity.
Defined.



(** ** The single-row path and samples that are not there *)

Module OffsetMore.
Import NumberFacts.

(** The single-row path on integers, whatever the row's first chunk. *)
Lemma sampleToChunk_one_row (this : Track) (row : StscRow) (sample : Z)
    (messages : console) :
  stsc (stbl (trak this)) = [row] ->
  0 < samplesPerChunk row ->
  0 <= sample ->
  sampleToChunk this (of_Z sample) messages
  = (Normal (Some {| index := div (of_Z sample) (of_Z (samplesPerChunk row));
                     offset := of_Z (sample mod samplesPerChunk row) |}),
     if firstChunk row =? 1 then messages else messages ++ [None]).
Proof.
  intros Htable Hc Hs. unfold sampleToChunk. rewrite Htable.
  unfold bind, assert, ret, console_error, console_HasConsole.
  now rewrite rem_of_Z.
Qed.

Lemma get_cases (table : list Z) (i : number) :
  get table i = undefined \/ exists z, get table i = num (of_Z z).
Proof.
  unfold get. destruct (to_index i) as [n|]; [|now left].
  destruct (nth_error table n) as [z|]; [right; now exists z|now left].
Qed.

Lemma get_plus_zero (table : list Z) (i : number) :
  add (to_number (get table i)) (of_Z 0) = to_number (get table i).
Proof.
  destruct (get_cases table i) as [H|[z H]]; rewrite H; cbn [to_number].
  - reflexivity.
  - rewrite add_of_Z. now rewrite Z.add_0_r.
Qed.





End OffsetMore.

(** X6.  On a table of a single row with [c > 0] samples per chunk, the
    first sample of every chunk resolves as it should: [sampleToChunk]
    of sample [c * q] is chunk [q] at position 0 and [sampleToOffset] is
    that chunk's entry of the chunk-offset table ([NaN] when it has
    none), with or without a size table.  A first chunk other than 1 is
    only logged. *)
Theorem single_row_chunk_starts (this : Track) (row : StscRow) (q : Z)
    (messages : console) :
  stsc (stbl (trak this)) = [row] ->
  0 < samplesPerChunk row ->
  0 <= q ->
  let logged :=
    if firstChunk row =? 1 then messages else messages ++ [None] in
  sampleToChunk this (of_Z (samplesPerChunk row * q)) messages
  = (Normal (Some {| index := of_Z q; offset := of_Z 0 |}), logged)
  /\ sampleToOffset this (of_Z (samplesPerChunk row * q)) messages
     = (Normal (to_number (chunkToOffset this (of_Z q))), logged).
Proof.
  intros Htable Hc Hq logged.
  assert (Hchunk :
            sampleToChunk this (of_Z (samplesPerChunk row * q)) messages
            = (Normal (Some {| index := of_Z q; offset := of_Z 0 |}), logged)).
  { rewrite (OffsetMore.sampleToChunk_one_row this row) by (auto; nia).
    rewrite ChunkMore.div_of_Z_exact by assumption.
    rewrite Z.mul_comm, Z.mod_mul by lia. reflexivity. }
  split; [exact Hchunk|].
  unfold sampleToOffset, bind. rewrite Hchunk. cbn [index offset].
  unfold sampleToSize, lift.
  rewrite NumberFacts.sub_of_Z, NumberFacts.add_of_Z.
  rewrite SizeFacts.sampleToSize_for_empty by lia.
  unfold ret, chunkToOffset. now rewrite OffsetMore.get_plus_zero.
Qed.

Lemma single_row_chunk_starts_witness :
  sampleToChunk (track_of {| sampleSize := 0; stsz_table := Some [7; 9; 4; 4] |}
                   [stsc_row 1 2 1] [100; 116] [] 0 [])
    (of_Z (2 * 1)) []
  = (Normal (Some {| index := of_Z 1; offset := of_Z 0 |}), [])
  /\ sampleToOffset
       (track_of {| sampleSize := 0; stsz_table := Some [7; 9; 4; 4] |}
          [stsc_row 1 2 1] [100; 116] [] 0 [])
       (of_Z (2 * 1)) []
     = (Normal (to_number
                  (chunkToOffset
                     (track_of {| sampleSize := 0;
                                  stsz_table := Some [7; 9; 4; 4] |}
                        [stsc_row 1 2 1] [100; 116] [] 0 [])
                     (of_Z 1))),
        []).
Proof.
  apply (single_row_chunk_starts
           (track_of {| sampleSize := 0; stsz_table := Some [7; 9; 4; 4] |}
              [stsc_row 1 2 1] [100; 116] [] 0 [])
           (stsc_row 1 2 1) 1 []).
  - reflexivity.
  - simpl. lia.
  - lia.
Defined.





(** ** Times *)

Module TimeMore.
Import NumberFacts.





End TimeMore.









(** ** Decoding length-prefixed units *)

Module NalMore.
Import NumberFacts.

Lemma be32_prefix32 (n : Z) (rest : list Z) :
  0 <= n < 4294967296 ->
  ByteStream.be32 (prefix32 n ++ rest) 0 = n.
Proof.
  intros Hn. unfold ByteStream.be32, prefix32. cbn [app Z.add].
  change (ByteStream.byte_at ?l 0)
    with (nth 0 l 0).
  change (ByteStream.byte_at ?l 1)
    with (nth 1 l 0).
  change (ByteStream.byte_at ?l 2)
    with (nth 2 l 0).
  change (ByteStream.byte_at ?l 3)
    with (nth 3 l 0).
  cbn [nth].
  pose proof (Z.div_mod n 256) as H0.
  pose proof (Z.div_mod (n / 256) 256) as H1.
  pose proof (Z.div_mod (n / 65536) 256) as H2.
  assert (H16 : n / 256 / 256 = n / 65536)
    by (rewrite Z.div_div by lia; reflexivity).
  assert (H24 : n / 65536 / 256 = n / 16777216)
    by (rewrite Z.div_div by lia; reflexivity).
  rewrite H16 in H1. rewrite H24 in H2. lia.
Qed.

Lemma encode_units_cons (unit : list Z) (rest : list (list Z)) :
  encode_units (unit :: rest)
  = prefix32 (Z.of_nat (List.length unit)) ++ unit ++ encode_units rest.
Proof. reflexivity. Qed.

Lemma encode_units_length (unit : list Z) (rest : list (list Z)) :
  Z.of_nat (List.length (encode_units (unit :: rest)))
  = 4 + Z.of_nat (List.length unit)
    + Z.of_nat (List.length (encode_units rest)).
Proof.
  rewrite encode_units_cons, !length_app. cbn [prefix32 List.length]. lia.
Qed.

Lemma encode_units_long (units : list (list Z)) :
  (List.length units <= List.length (encode_units units))%nat.
Proof.
  induction units as [|unit rest IH]; [cbn; lia|].
  pose proof (encode_units_length unit rest). cbn [List.length] in *. lia.
Qed.

Lemma slice_unit (n : Z) (unit rest : list Z) :
  slice 4 (Z.of_nat (List.length unit)) (prefix32 n ++ unit ++ rest) = unit.
Proof.
  unfold slice, prefix32. rewrite Nat2Z.id.
  change (Z.to_nat 4) with 4%nat. cbn [app skipn].
  rewrite firstn_app, Nat.sub_diag, firstn_all. cbn [firstn].
  now rewrite app_nil_r.
Qed.

Lemma slice_rest (n : Z) (unit rest : list Z) :
  slice (4 + Z.of_nat (List.length unit)) (Z.of_nat (List.length rest))
    (prefix32 n ++ unit ++ rest)
  = rest.
Proof.
  unfold slice, prefix32. rewrite Nat2Z.id.
  replace (Z.to_nat (4 + Z.of_nat (List.length unit)))
    with (4 + List.length unit)%nat by lia.
  cbn [app skipn Nat.add].
  rewrite skipn_app, Nat.sub_diag, skipn_all. cbn [skipn app].
  apply firstn_all.
Qed.

(** The loop over a well-formed sample. *)
Lemma while_decodes (units : list (list Z)) :
  forall (fuel : nat) (bytes : list Z) (o : Z) (nalUnits : list (list Z)),
    0 <= o ->
    Forall (fun unit => Z.of_nat (List.length unit) < 4294967296) units ->
    slice o (Z.of_nat (List.length (encode_units units))) bytes
    = encode_units units ->
    (List.length units <= fuel)%nat ->
    getSampleNALUnits_while fuel bytes (of_Z o)
      (of_Z (o + Z.of_nat (List.length (encode_units units)))) nalUnits
    = Normal (of_Z (o + Z.of_nat (List.length (encode_units units))),
              nalUnits ++ units).
Proof.
  induction units as [|unit rest IH];
    intros fuel bytes o nalUnits Ho Hshort Hslice Hfuel.
  - cbn [encode_units List.length Z.of_nat].
    rewrite NalFacts.while_done by lia.
    now rewrite Z.add_0_r, app_nil_r.
  - inversion Hshort as [|? ? Hunit Hrest]; subst.
    destruct fuel as [|fuel]; [cbn in Hfuel; lia|].
    pose proof (encode_units_length unit rest) as HL.
    set (L := Z.of_nat (List.length (encode_units (unit :: rest)))) in *.
    set (n := Z.of_nat (List.length unit)) in *.
    set (L' := Z.of_nat (List.length (encode_units rest))) in *.
    assert (Hn : 0 <= n) by (unfold n; lia).
    assert (HL' : 0 <= L') by (unfold L'; lia).
    assert (Hlen : o + L <= Z.of_nat (List.length bytes)).
    { apply NalFacts.slice_length; try lia.
      rewrite Hslice. unfold L. now rewrite Nat2Z.id. }
    assert (Hprefix : ByteStream.be32 bytes o = n).
    { rewrite <- (Z.add_0_r o).
      rewrite (NalFacts.be32_slice o L 0) by lia.
      rewrite Hslice, encode_units_cons. apply be32_prefix32.
      fold n. lia. }
    rewrite NalFacts.while_step by (rewrite ?Hprefix; lia).
    rewrite Hprefix.
    assert (Hu : slice (o + 4) n bytes = unit).
    { rewrite (NalFacts.slice_slice o L) by lia.
      rewrite Hslice, encode_units_cons. apply slice_unit. }
    rewrite Hu.
    assert (Hr : slice (o + 4 + n) L' bytes = encode_units rest).
    { replace (o + 4 + n) with (o + (4 + n)) by lia.
      rewrite (NalFacts.slice_slice o L) by lia.
      rewrite Hslice, encode_units_cons. apply slice_rest. }
    replace (o + L) with (o + 4 + n + L') by lia.
    rewrite IH; try assumption; try lia.
    + now rewrite <- app_assoc.
    + cbn [List.length] in Hfuel. lia.
Qed.

End NalMore.

(** X13.  Decoding undoes encoding.  When the bytes of a sample are a
    sequence of units, each behind the four bytes of its length (less
    than 2^32), [getSampleNALUnits] returns exactly those units, in
    their order and without the prefixes, whatever their number and
    their lengths (a unit may be empty, a sample may hold none). *)
Theorem getSampleNALUnits_decodes (this : Track) (sample : number)
    (messages messages' : console) (o : Z) (units : list (list Z)) :
  0 <= o ->
  Forall (fun unit => Z.of_nat (List.length unit) < 4294967296) units ->
  slice o (Z.of_nat (List.length (encode_units units)))
    (stream_bytes (file this))
  = encode_units units ->
  sampleToOffset this sample messages = (Normal (of_Z o), messages') ->
  sampleToSize this sample (of_Z 1) messages'
  = (Normal (of_Z (Z.of_nat (List.length (encode_units units)))), messages') ->
  getSampleNALUnits this sample messages = (Normal units, messages').
Proof.
  intros Ho Hshort Hslice Hoff Hsize.
  rewrite (NalFacts.getSampleNALUnits_unfold _ _ _ _ _ _ Hoff Hsize).
  rewrite NalMore.while_decodes; try assumption.
  - reflexivity.
  - rewrite Nat2Z.id. apply NalMore.encode_units_long.
Qed.

(** Three units, the second one empty, behind a first sample of two
    bytes. *)
Lemma getSampleNALUnits_decodes_witness :
  getSampleNALUnits
    (track_of {| sampleSize := 0; stsz_table := Some [2; 17] |}
       [stsc_row 1 1 1] [0; 2] [] 0
       ([9; 9] ++ encode_units [[1; 2; 3]; []; [4; 5]]))
    (of_Z 1) []
  = (Normal [[1; 2; 3]; []; [4; 5]], []).
Proof.
  apply (getSampleNALUnits_decodes
           (track_of {| sampleSize := 0; stsz_table := Some [2; 17] |}
              [stsc_row 1 1 1] [0; 2] [] 0
              ([9; 9] ++ encode_units [[1; 2; 3]; []; [4; 5]]))
           (of_Z 1) [] [] 2 [[1; 2; 3]; []; [4; 5]]).
  - lia.
  - repeat constructor.
  - reflexivity.
  - reflexivity.
  - reflexivity.
Defined.

(** ** Boxes *)

Module ReaderMore.

Lemma step_peek32 {B : Type} (bytes : list Z) (p : Z) (messages : console)
    (k : Z -> js ReaderState B) :
  bind peek32 k (reader_at bytes p messages)
  = k (if p + 4 <=? Z.of_nat (List.length bytes)
       then ByteStream.be32 bytes p else 0)
      (reader_at bytes p messages).
Proof. reflexivity. Qed.

Lemma readBoxes_eq (fuel : nat) (parent : object Box) :
  readBoxes fuel parent
  = bind peek32
      (fun next =>
         if next =? 0 then ret (Some parent)
         else
           match fuel with
           | O => lift Diverge
           | S fuel' =>
               bind readBox
                 (fun child =>
                    match child with
                    | None => ret None
                    | Some child =>
                        readBoxes fuel'
                          (attachChild parent (box_type child) child)
                    end)
           end).
Proof. destruct fuel; reflexivity. Qed.

Lemma unknown_type_spec (type : string) :
  unknown_type type = true ->
  String.eqb type "tkhd" = false
  /\ String.eqb type "stsz" = false
  /\ existsb (String.eqb type) not_embedded = false.
Proof.
  unfold unknown_type. rewrite !Bool.andb_true_iff, !Bool.negb_true_iff.
  tauto.
Qed.

(** The default case. *)
Lemma readBox_default (bytes : list Z) (p : Z) (messages : console) :
  unknown_type (fourCC_at bytes (p + 4)) = true ->
  readBox (reader_at bytes p messages)
  = (Normal (Some (skipped_box p (ByteStream.be32 bytes p)
                     (fourCC_at bytes (p + 4)))),
     reader_at bytes (p + ByteStream.be32 bytes p) messages).
Proof.
  intros Htype. apply unknown_type_spec in Htype.
  destruct Htype as (H1 & H2 & H3).
  unfold readBox. do 3 ReaderFacts.step. rewrite H1, H2, H3.
  do 2 ReaderFacts.step. unfold skipped_box. ReaderFacts.same_result.
Qed.

Lemma readU32Array_from_length (rows : nat) :
  forall (bytes : list Z) (p : Z),
    List.length (ByteStream.readU32Array_from rows bytes p) = rows.
Proof.
  induction rows as [|rows IH]; intros bytes p; cbn; [reflexivity|].
  now rewrite IH.
Qed.

Lemma readU32Array_from_nth (rows : nat) :
  forall (bytes : list Z) (p : Z) (i : nat),
    (i < rows)%nat ->
    nth i (ByteStream.readU32Array_from rows bytes p) 0
    = ByteStream.be32 bytes (p + 4 * Z.of_nat i).
Proof.
  induction rows as [|rows IH]; intros bytes p i Hi; [lia|].
  destruct i as [|i]; cbn [ByteStream.readU32Array_from nth].
  - f_equal. lia.
  - rewrite IH by lia. f_equal. lia.
Qed.

(** Properties and [store]. *)
Lemma lookup_store_same {V} (key : string) (s : slot V) (parent : object V) :
  lookup key (store key s parent) = Some s.
Proof.
  induction parent as [|[k old] rest IH]; cbn [store lookup].
  - now rewrite String.eqb_refl.
  - destruct (String.eqb k key) eqn:Hk; cbn [lookup].
    + now rewrite String.eqb_refl.
    + now rewrite Hk.
Qed.

Lemma lookup_store_other {V} (key other : string) (s : slot V)
    (parent : object V) :
  String.eqb key other = false ->
  lookup other (store key s parent) = lookup other parent.
Proof.
  intros Hne. induction parent as [|[k old] rest IH]; cbn [store lookup].
  - now rewrite Hne.
  - destruct (String.eqb k key) eqn:Hk; cbn [lookup].
    + apply String.eqb_eq in Hk. subst k. now rewrite Hne.
    + destruct (String.eqb k other); [reflexivity|exact IH].
Qed.

Lemma lookup_attachChild_same {V} (parent : object V) (type : string)
    (child : V) :
  lookup type (attachChild parent type child)
  = match lookup type parent with
    | None => Some (Single child)
    | Some (Single v) => Some (Many [v; child])
    | Some (Many vs) => Some (Many (vs ++ [child]))
    end.
Proof.
  unfold attachChild.
  destruct (lookup type parent) as [[v|vs]|]; apply lookup_store_same.
Qed.

Lemma lookup_attachChild_other {V} (parent : object V) (type other : string)
    (child : V) :
  String.eqb type other = false ->
  lookup other (attachChild parent type child) = lookup other parent.
Proof.
  intros Hne. unfold attachChild.
  destruct (lookup type parent) as [[v|vs]|];
    now apply lookup_store_other.
Qed.

Lemma of_type_cons {V} (type key : string) (child : V)
    (children : list (string * V)) :
  of_type type ((key, child) :: children)
  = (if String.eqb key type then [child] else []) ++ of_type type children.
Proof.
  unfold of_type. cbn [filter fst].
  destruct (String.eqb key type); reflexivity.
Qed.

Lemma attachChildren_cons {V} (parent : object V) (key : string) (child : V)
    (children : list (string * V)) :
  attachChildren parent ((key, child) :: children)
  = attachChildren (attachChild parent key child) children.
Proof. reflexivity. Qed.

Lemma slot_values_attachChildren {V} (type : string)
    (children : list (string * V)) :
  forall parent : object V,
    slot_values (lookup type (attachChildren parent children))
    = slot_values (lookup type parent) ++ of_type type children.
Proof.
  induction children as [|[key child] children IH]; intros parent.
  - cbn. now rewrite app_nil_r.
  - rewrite attachChildren_cons, IH, of_type_cons, app_assoc. f_equal.
    destruct (String.eqb key type) eqn:Hk.
    + apply String.eqb_eq in Hk. subst key.
      rewrite lookup_attachChild_same.
      destruct (lookup type parent) as [[v|vs]|]; reflexivity.
    + rewrite lookup_attachChild_other by assumption.
      now rewrite app_nil_r.
Qed.

Lemma slot_of_attachChildren {V} (type : string)
    (children : list (string * V)) :
  forall (parent : object V) (before : list V),
    lookup type parent = slot_of before ->
    lookup type (attachChildren parent children)
    = slot_of (before ++ of_type type children).
Proof.
  induction children as [|[key child] children IH]; intros parent before Hb.
  - cbn. now rewrite app_nil_r.
  - rewrite attachChildren_cons, of_type_cons, app_assoc.
    apply IH.
    destruct (String.eqb key type) eqn:Hk.
    + apply String.eqb_eq in Hk. subst key.
      rewrite lookup_attachChild_same, Hb.
      destruct before as [|v [|w before]]; reflexivity.
    + rewrite lookup_attachChild_other by assumption.
      now rewrite app_nil_r.
Qed.

End ReaderMore.

(** X14.  A box of a type [readBox] has no case for is skipped by its
    declared size: whatever the box holds, the cursor ends at the start
    of the box plus that size, the box comes back with its offset, size
    and type only, and nothing is logged. *)
Theorem readBox_skips_unknown_type (bytes : list Z) (p : Z)
    (messages : console) :
  0 <= p ->
  p + 8 <= Z.of_nat (List.length bytes) ->
  8 <= ByteStream.be32 bytes p ->
  unknown_type (fourCC_at bytes (p + 4)) = true ->
  readBox (reader_at bytes p messages)
  = (Normal (Some (skipped_box p (ByteStream.be32 bytes p)
                     (fourCC_at bytes (p + 4)))),
     reader_at bytes (p + ByteStream.be32 bytes p) messages).
Proof.
  intros _ _ _ Htype. now apply ReaderMore.readBox_default.
Qed.

(** A box of type [free], twenty bytes long. *)
Lemma readBox_skips_unknown_type_witness :
  readBox (reader_at ([0; 0; 0; 20] ++ bytes_of_string "free" ++ repeat 7 12)
             0 [])
  = (Normal (Some (skipped_box 0 20 "free")),
     reader_at ([0; 0; 0; 20] ++ bytes_of_string "free" ++ repeat 7 12)
       (0 + 20) []).
Proof.
  apply (readBox_skips_unknown_type
           ([0; 0; 0; 20] ++ bytes_of_string "free" ++ repeat 7 12) 0 []).
  - lia.
  - simpl. lia.
  - vm_compute. discriminate.
  - reflexivity.
Defined.

(** X15.  A [tkhd] box of version 0 is read without a message: its
    fields come from their fixed offsets, and the cursor ends 92 bytes
    after the start of the box, whatever size the box declares. *)
Theorem readBox_tkhd_version0 (bytes : list Z) (p : Z) (messages : console) :
  0 <= p ->
  p + 92 <= Z.of_nat (List.length bytes) ->
  fourCC_at bytes (p + 4) = "tkhd"%string ->
  ByteStream.byte_at bytes (p + 8) = 0 ->
  readBox (reader_at bytes p messages)
  = (Normal (Some (tkhd_box bytes p)), reader_at bytes (p + 92) messages).
Proof.
  intros _ _ Htype Hversion.
  unfold readBox. do 3 ReaderFacts.step. rewrite Htype.
  change (String.eqb "tkhd" "tkhd") with true. cbv iota.
  repeat ReaderFacts.step.
  replace (p + 4 + 4) with (p + 8) by lia.
  rewrite Hversion. change (0 =? 0) with true. cbv iota.
  change (Z.to_nat 9) with 9%nat.
  unfold tkhd_box. rewrite Hversion.
  ReaderFacts.same_result.
Qed.

(** A version 0 box of track 2, 640 by 368, declaring 92 bytes. *)
Lemma readBox_tkhd_version0_witness :
  readBox
    (reader_at
       ([0; 0; 0; 92] ++ bytes_of_string "tkhd" ++ [0; 0; 0; 7]
        ++ [0; 0; 0; 5] ++ [0; 0; 0; 6] ++ [0; 0; 0; 2] ++ repeat 0 4
        ++ [0; 0; 1; 0] ++ repeat 0 8 ++ repeat 0 4 ++ [1; 0; 0; 0]
        ++ repeat 0 36 ++ [2; 128; 0; 0] ++ [1; 112; 0; 0])
       0 [])
  = (Normal
       (Some
          (tkhd_box
             ([0; 0; 0; 92] ++ bytes_of_string "tkhd" ++ [0; 0; 0; 7]
              ++ [0; 0; 0; 5] ++ [0; 0; 0; 6] ++ [0; 0; 0; 2] ++ repeat 0 4
              ++ [0; 0; 1; 0] ++ repeat 0 8 ++ repeat 0 4 ++ [1; 0; 0; 0]
              ++ repeat 0 36 ++ [2; 128; 0; 0] ++ [1; 112; 0; 0])
             0)),
     reader_at
       ([0; 0; 0; 92] ++ bytes_of_string "tkhd" ++ [0; 0; 0; 7]
        ++ [0; 0; 0; 5] ++ [0; 0; 0; 6] ++ [0; 0; 0; 2] ++ repeat 0 4
        ++ [0; 0; 1; 0] ++ repeat 0 8 ++ repeat 0 4 ++ [1; 0; 0; 0]
        ++ repeat 0 36 ++ [2; 128; 0; 0] ++ [1; 112; 0; 0])
       (0 + 92) []).
Proof.
  apply readBox_tkhd_version0.
  - lia.
  - vm_compute. discriminate.
  - reflexivity.
  - reflexivity.
Defined.

(** X16.  From an [stsz] box to the track.  When the uniform size of the
    box is zero, [readBox] reads the declared number of sizes behind it
    and stops right after them; on a track over that box
    [getSampleCount] is the declared count and the size of every sample
    [i] below it is the 32-bit number stored at byte [20 + 4 i] of the
    box. *)
Theorem stsz_table_round_trip (bytes : list Z) (p : Z) (messages : console)
    (this : Track) (sizes : Stsz) :
  Forall is_byte bytes ->
  0 <= p ->
  fourCC_at bytes (p + 4) = "stsz"%string ->
  ByteStream.be32 bytes (p + 12) = 0 ->
  p + 20 + 4 * ByteStream.be32 bytes (p + 16) <= Z.of_nat (List.length bytes) ->
  stsz_of_box (stsz_box bytes p) = Some sizes ->
  stsz (stbl (trak this)) = sizes ->
  readBox (reader_at bytes p messages)
  = (Normal (Some (stsz_box bytes p)),
     reader_at bytes (p + 20 + 4 * ByteStream.be32 bytes (p + 16)) messages)
  /\ getSampleCount this messages
     = (Normal (of_Z (ByteStream.be32 bytes (p + 16))), messages)
  /\ (forall i : Z,
         0 <= i < ByteStream.be32 bytes (p + 16) ->
         sampleToSize this (of_Z i) (of_Z 1) messages
         = (Normal (of_Z (ByteStream.be32 bytes (p + 20 + 4 * i))), messages)).
Proof.
  intros Hbytes Hp Htype Huniform Hlen Hbox Hthis.
  pose proof (NalFacts.be32_nonneg bytes (p + 16) Hbytes) as Hcount.
  set (count_ := ByteStream.be32 bytes (p + 16)) in *.
  assert (Htable : getSampleSizeTable this
                   = Some (ByteStream.readU32Array_from (Z.to_nat count_)
                             bytes (p + 20))).
  { unfold getSampleSizeTable. rewrite Hthis.
    unfold stsz_of_box, stsz_box in Hbox. cbn [box_fields] in Hbox.
    injection Hbox as <-. reflexivity. }
  split; [|split].
  - unfold readBox. do 3 ReaderFacts.step. rewrite Htype.
    change (String.eqb "stsz" "tkhd") with false.
    change (String.eqb "stsz" "stsz") with true. cbv iota.
    do 4 ReaderFacts.step.
    replace (p + 4 + 4 + 1 + 3) with (p + 12) by lia.
    rewrite Huniform. change (0 =? 0) with true. cbv iota.
    replace (p + 12 + 4) with (p + 16) by lia. fold count_.
    cbv beta iota delta
      [bind on_stream ret ByteStream.readU32Array reader_at stream log
       ByteStream.bytes ByteStream.position ByteStream.advance].
    unfold stsz_box. fold count_. rewrite Z.max_l by lia.
    ReaderFacts.same_result.
  - unfold getSampleCount. rewrite Htable.
    rewrite ReaderMore.readU32Array_from_length.
    unfold ret. now rewrite Z2Nat.id by lia.
  - intros i Hi.
    rewrite (SizeMore.sampleToSize_value this _ i 1 messages Htable).
    rewrite ReaderMore.readU32Array_from_length.
    replace (within_table (Z.of_nat (Z.to_nat count_)) i 1) with true
      by (symmetry; apply SizeMore.within_table_spec; lia).
    rewrite SizeMore.sum_sizes_cons
      by (rewrite ?ReaderMore.readU32Array_from_length; lia).
    rewrite SizeMore.sum_sizes_empty by lia.
    rewrite ReaderMore.readU32Array_from_nth by lia.
    rewrite Z.add_0_r, Z2Nat.id by lia.
    reflexivity.
Qed.

(** A box of three sizes. *)
Lemma stsz_table_round_trip_witness :
  let bytes := [0; 0; 0; 32] ++ bytes_of_string "stsz" ++ [0; 0; 0; 0]
               ++ [0; 0; 0; 0] ++ [0; 0; 0; 3]
               ++ [0; 0; 0; 9] ++ [0; 0; 1; 0] ++ [0; 0; 0; 5] in
  let sizes := {| sampleSize := 0; stsz_table := Some [9; 256; 5] |} in
  let this := track_of sizes [stsc_row 1 1 1] [0; 9; 265] [] 0 [] in
  readBox (reader_at bytes 0 [])
  = (Normal (Some (stsz_box bytes 0)),
     reader_at bytes (0 + 20 + 4 * ByteStream.be32 bytes (0 + 16)) [])
  /\ getSampleCount this []
     = (Normal (of_Z (ByteStream.be32 bytes (0 + 16))), [])
  /\ (forall i : Z,
         0 <= i < ByteStream.be32 bytes (0 + 16) ->
         sampleToSize this (of_Z i) (of_Z 1) []
         = (Normal (of_Z (ByteStream.be32 bytes (0 + 20 + 4 * i))), [])).
Proof.
  cbv zeta.
  apply (stsz_table_round_trip
           ([0; 0; 0; 32] ++ bytes_of_string "stsz" ++ [0; 0; 0; 0]
            ++ [0; 0; 0; 0] ++ [0; 0; 0; 3]
            ++ [0; 0; 0; 9] ++ [0; 0; 1; 0] ++ [0; 0; 0; 5])
           0 []
           (track_of {| sampleSize := 0; stsz_table := Some [9; 256; 5] |}
              [stsc_row 1 1 1] [0; 9; 265] [] 0 [])
           {| sampleSize := 0; stsz_table := Some [9; 256; 5] |}).
  - repeat constructor; unfold is_byte; lia.
  - lia.
  - reflexivity.
  - reflexivity.
  - vm_compute. discriminate.
  - reflexivity.
  - reflexivity.
Defined.

(** X17.  Attaching children to a box loses none and keeps their order:
    after the children have been attached one after the other, the
    values under a type are those that were there before, followed by
    the children of that type in the order they came; children of other
    types leave the property alone. *)
Theorem attachChildren_keeps_all {V : Type} (parent : object V)
    (children : list (string * V)) (type : string) :
  Forall (fun child => String.length (fst child) = 4%nat) children ->
  slot_values (lookup type (attachChildren parent children))
  = slot_values (lookup type parent) ++ of_type type children.
Proof.
  intros _. apply ReaderMore.slot_values_attachChildren.
Qed.

Lemma attachChildren_keeps_all_witness :
  slot_values
    (lookup "trak"
       (attachChildren [("mvhd"%string, Single 1)]
          [("trak"%string, 2); ("udta"%string, 3); ("trak"%string, 4)]))
  = slot_values (lookup "trak" [("mvhd"%string, Single 1)])
    ++ of_type "trak"
         [("trak"%string, 2); ("udta"%string, 3); ("trak"%string, 4)].
Proof.
  apply (attachChildren_keeps_all
           [("mvhd"%string, Single 1)]
           [("trak"%string, 2); ("udta"%string, 3); ("trak"%string, 4)]
           "trak").
  repeat constructor.
Defined.

(** X18.  The shape of a property depends on how many children share
    the type: on a parent that had nothing under a type, the property is
    absent when no child has the type, it is the child itself when
    exactly one has, and it is the array of them, in their order, when
    two or more have. *)
Theorem attachChildren_shape {V : Type} (parent : object V)
    (children : list (string * V)) (type : string) :
  Forall (fun child => String.length (fst child) = 4%nat) children ->
  lookup type parent = None ->
  lookup type (attachChildren parent children)
  = slot_of (of_type type children).
Proof.
  intros _ Hfresh.
  apply (ReaderMore.slot_of_attachChildren type children parent []).
  exact Hfresh.
Qed.

Lemma attachChildren_shape_witness :
  lookup "trak"
    (attachChildren []
       [("mvhd"%string, 1); ("trak"%string, 2); ("trak"%string, 3)])
  = slot_of (of_type "trak"
               [("mvhd"%string, 1); ("trak"%string, 2); ("trak"%string, 3)]).
Proof.
  apply (attachChildren_shape []
           [("mvhd"%string, 1); ("trak"%string, 2); ("trak"%string, 3)]
           "trak").
  - repeat constructor.
  - reflexivity.
Defined.

(** X19.  [readBoxes] walks over boxes of unknown types.  When the
    buffer holds, from the cursor on, a run of such boxes end to end,
    followed by a zero size or by fewer than four bytes, the loop reads
    every one of them, attaches each under its type in the order met,
    logs nothing, and stops with the cursor right behind the last
    one. *)
Theorem readBoxes_over_unknown_boxes (bytes : list Z)
    (run : list (Z * string)) (p q : Z) :
  unknown_boxes bytes p run q ->
  forall (fuel : nat) (parent : object Box) (messages : console),
    (List.length run <= fuel)%nat ->
    readBoxes fuel parent (reader_at bytes p messages)
    = (Normal (Some (attachChildren parent (skipped_boxes p run))),
       reader_at bytes q messages).
Proof.
  induction 1 as [p Hend|p size type rest q Hhead Hsize Hlong Hfits Htype
                    Hunknown Hrest IH];
    intros fuel parent messages Hfuel;
    rewrite ReaderMore.readBoxes_eq, ReaderMore.step_peek32.
  - assert (Hzero : (if p + 4 <=? Z.of_nat (List.length bytes)
                     then ByteStream.be32 bytes p else 0) = 0).
    { destruct (Z.leb_spec (p + 4) (Z.of_nat (List.length bytes)));
        [destruct Hend; [lia|assumption]|reflexivity]. }
    rewrite Hzero. reflexivity.
  - destruct (Z.leb_spec (p + 4) (Z.of_nat (List.length bytes))); [|lia].
    rewrite Hsize.
    destruct (Z.eqb_spec size 0); [lia|].
    destruct fuel as [|fuel]; [cbn in Hfuel; lia|].
    unfold bind at 1.
    rewrite ReaderMore.readBox_default by (rewrite Htype; exact Hunknown).
    rewrite Hsize, Htype.
    cbn [skipped_boxes box_type skipped_box].
    rewrite ReaderMore.attachChildren_cons. cbn [fst snd].
    apply IH. cbn [List.length] in Hfuel. lia.
Qed.

(** A [free] box of eight bytes and a [udta] box of twelve, then a zero
    size. *)
Lemma readBoxes_over_unknown_boxes_witness :
  let bytes := [0; 0; 0; 8] ++ bytes_of_string "free"
               ++ [0; 0; 0; 12] ++ bytes_of_string "udta" ++ [1; 2; 3; 4]
               ++ [0; 0; 0; 0] in
  readBoxes 5 [] (reader_at bytes 0 [])
  = (Normal
       (Some (attachChildren []
                (skipped_boxes 0 [(8, "free"%string); (12, "udta"%string)]))),
     reader_at bytes 20 []).
Proof.
  cbv zeta.
  apply (readBoxes_over_unknown_boxes
           ([0; 0; 0; 8] ++ bytes_of_string "free"
            ++ [0; 0; 0; 12] ++ bytes_of_string "udta" ++ [1; 2; 3; 4]
            ++ [0; 0; 0; 0])
           [(8, "free"%string); (12, "udta"%string)] 0 20).
  - apply unknown_boxes_next;
      [simpl; lia|reflexivity|lia|simpl; lia|reflexivity|reflexivity|].
    apply unknown_boxes_next;
      [simpl; lia|reflexivity|lia|simpl; lia|reflexivity|reflexivity|].
    apply unknown_boxes_end. right. reflexivity.
  - simpl. lia.
Defined.

